(** * Castari SDK: connection broker (server.ts) and session manager (client.ts)

    A shallow embedding of the session protocol of the SDK: the one-time
    connection tokens, the single active transport, the input queue drained
    into the runtime's prompt stream, the resolution of the runtime options,
    and the client's start/stop sequence with its configuration retry.

    Conventions.
    - JavaScript numbers that hold millisecond timestamps are integers far
      below 2^53, so they are modelled by [Z] with exact arithmetic.
    - [Date.now()] is an input: every call site receives its own reading.
    - A [Map] or an options object is a [gmap] keyed by strings; the claims
      studied here never depend on the iteration order.
    - Everything the process does to the outside world is recorded, in
      program order, in a trace of events. *)

From stdpp Require Import gmap strings list fin_maps pretty.
From Stdlib Require Import ZArith Lia Ascii.

Set Warnings "-register-all".

(** ** JavaScript values *)

(** The values that flow through option bags and JSON payloads.  [VFun]
    stands for any value that is only ever passed along (callbacks, the SDK
    server handle); the number identifies it. *)
Inductive Value :=
| VUndefined
| VNull
| VBool (b : bool)
| VNum (n : Z)
| VStr (s : string)
| VArr (items : list Value)
| VObj (fields : gmap string Value)
| VFun (id : nat).

Definition nonEmpty (s : string) : bool :=
  match s with EmptyString => false | String _ _ => true end.

(** [ToBoolean]: what [if (v)], [!v], [a || b] and [a && b] test. *)
Definition truthy (v : Value) : bool :=
  match v with
  | VUndefined | VNull => false
  | VBool b => b
  | VNum n => negb (n =? 0)%Z
  | VStr s => nonEmpty s
  | VArr _ | VObj _ | VFun _ => true
  end.

(** [a || b] on values. *)
Definition jsOr (a b : Value) : Value := if truthy a then a else b.

(** [a || b] on optional strings ([undefined] is [None]). *)
Definition orElse (a b : option string) : option string :=
  match a with
  | Some s => if nonEmpty s then a else b
  | None => b
  end.

Definition truthyStr (a : option string) : bool :=
  match a with Some s => nonEmpty s | None => false end.

Definition ofOptStr (a : option string) : Value :=
  match a with Some s => VStr s | None => VUndefined end.

(** The own enumerable properties copied by an object spread [{...v}]:
    the fields of an object, the indexed elements of an array or of a
    string, nothing for the other values. *)
Definition indexed (l : list Value) : gmap string Value :=
  list_to_map (imap (λ i v, (pretty i, v)) l).

Fixpoint chars (s : string) : list Value :=
  match s with
  | EmptyString => []
  | String c s' => VStr (String c EmptyString) :: chars s'
  end.

Definition spread (v : Value) : gmap string Value :=
  match v with
  | VObj fields => fields
  | VArr items => indexed items
  | VStr s => indexed (chars s)
  | _ => ∅
  end.

(** Property read [v.key]; [None] is the TypeError raised on [null] and
    [undefined].  Only the keys used by the code ("length" apart) are read,
    and those are never inherited, so a missing own property is
    [undefined]. *)
Definition getProp (v : Value) (key : string) : option Value :=
  match v with
  | VUndefined | VNull => None
  | VObj fields => Some (default VUndefined (fields !! key))
  | _ => Some VUndefined
  end.

(** [v.length > 0] for a truthy [v]. *)
Definition lengthPositive (v : Value) : bool :=
  match v with
  | VArr items => negb (length items =? 0)%nat
  | VStr s => nonEmpty s
  | VObj fields =>
      match fields !! "length" with
      | Some (VNum n) => (0 <? n)%Z
      | _ => false
      end
  | _ => false
  end.

(** * The broker: server.ts *)

Module Server.

(** ** Token store (server.ts, lines 25-83) *)

(** const.ts: five minutes, in milliseconds. *)
Definition CONNECTION_TOKEN_TTL_MS : Z := 5 * 60 * 1000.

Record ConnectionToken := mkToken {
  value : string;
  createdAt : Z;
  used : bool
}.

(** [now - token.createdAt > CONNECTION_TOKEN_TTL_MS] *)
Definition isExpired (now : Z) (token : ConnectionToken) : bool :=
  (CONNECTION_TOKEN_TTL_MS <? now - createdAt token)%Z.

(** The test of [cleanupTokens]'s loop body. *)
Definition swept (now : Z) (token : ConnectionToken) : bool :=
  used token || isExpired now token.

(** [generateConnectionToken]: [hex] is [randomBytes(24).toString('hex')],
    [now] the reading of the clock. *)
Definition generateConnectionToken (hex : string) (now : Z)
    (tokens : gmap string ConnectionToken) : string * gmap string ConnectionToken :=
  (hex, <[hex := mkToken hex now false]> tokens).

(** [cleanupTokens]: deleting the entry being visited is safe while
    iterating a [Map], so the loop visits every entry and keeps exactly
    those that fail the test. *)
Definition cleanupTokens (now : Z) (tokens : gmap string ConnectionToken)
    : gmap string ConnectionToken :=
  filter (λ kv : string * ConnectionToken, swept now kv.2 = false) tokens.

(** [validateAndUseToken]: [nowSweep] is read by [cleanupTokens], [nowCheck]
    by the expiry test on the presented token.  [None] is [null]. *)
Definition validateAndUseToken (nowSweep nowCheck : Z) (presented : option string)
    (tokens : gmap string ConnectionToken) : bool * gmap string ConnectionToken :=
  let tokens := cleanupTokens nowSweep tokens in
  match presented with
  | None => (false, tokens)
  | Some v =>
      if negb (nonEmpty v) then (false, tokens)
      else match tokens !! v with
           | None => (false, tokens)
           | Some token =>
               if used token || isExpired nowCheck token
               then (false, delete v tokens)
               else (true, <[v := mkToken (value token) (createdAt token) true]> tokens)
           end
  end.

(** One call of [validateAndUseToken] with its two clock readings. *)
Record ValidateCall := mkCall {
  callSweep : Z;
  callCheck : Z;
  callToken : option string
}.

(** A sequence of calls, threading the store; the results in call order. *)
Fixpoint validateAll (calls : list ValidateCall) (tokens : gmap string ConnectionToken)
    : list bool * gmap string ConnectionToken :=
  match calls with
  | [] => ([], tokens)
  | c :: rest =>
      let '(r, tokens1) := validateAndUseToken (callSweep c) (callCheck c) (callToken c) tokens in
      let '(rs, tokens2) := validateAll rest tokens1 in
      (r :: rs, tokens2)
  end.

(** The calls that presented [t] and were accepted. *)
Fixpoint accepted (t : string) (calls : list ValidateCall) (results : list bool) : nat :=
  match calls, results with
  | c :: calls', r :: results' =>
      (if bool_decide (callToken c = Some t) && r then 1 else 0)
      + accepted t calls' results'
  | _, _ => 0
  end.

(** Operations on the store as the broker performs them: a token is issued
    by a successful POST /config and validated by a request on /ws. *)
Inductive StoreOp :=
| Issue (hex : string) (now : Z)
| Validate (call : ValidateCall).

Fixpoint storeRun (ops : list StoreOp) (tokens : gmap string ConnectionToken)
    : list (option string * bool) * gmap string ConnectionToken :=
  match ops with
  | [] => ([], tokens)
  | Issue hex now :: rest => storeRun rest (generateConnectionToken hex now tokens).2
  | Validate c :: rest =>
      let '(r, tokens1) := validateAndUseToken (callSweep c) (callCheck c) (callToken c) tokens in
      let '(rs, tokens2) := storeRun rest tokens1 in
      ((callToken c, r) :: rs, tokens2)
  end.

Definition issues (t : string) (op : StoreOp) : Prop :=
  match op with Issue hex _ => hex = t | Validate _ => False end.

(** ** Input queue and drain generator (server.ts, lines 34-35 and 86-96) *)

(** Where the generator [generateMessages] is suspended.  Its body runs
    without interruption between two suspension points, since the process is
    single-threaded. *)
Inductive GenPc :=
| NotStarted          (* created, [next()] not called yet *)
| AtYield             (* suspended at [yield message] *)
| Sleeping.           (* awaiting the 10 ms timer *)

(** What the generator did when it last ran. *)
Inductive GenOutput :=
| Yielded (message : Value)
| Waiting (ms : Z).

(** The inner loop [while (messageQueue.length > 0)]: [shift] takes the
    head, a falsy head is skipped without suspending, a truthy one is
    yielded.  Returns the yielded message, if any, and the queue left. *)
Fixpoint innerLoop (queue : list Value) : option Value * list Value :=
  match queue with
  | [] => (None, [])
  | message :: rest =>
      if truthy message then (Some message, rest) else innerLoop rest
  end.

Record Drain := mkDrain {
  queue : list Value;        (* [messageQueue] *)
  pc : GenPc;
  emitted : list GenOutput   (* everything the generator did, oldest first *)
}.

(** The generator runs from the test of the inner loop to its next
    suspension point. *)
Definition resume (d : Drain) : Drain :=
  match innerLoop (queue d) with
  | (Some message, rest) => mkDrain rest AtYield (emitted d ++ [Yielded message])
  | (None, rest) => mkDrain rest Sleeping (emitted d ++ [Waiting 10])
  end.

Inductive DrainEvent :=
| Push (message : Value)   (* [messageQueue.push(message)] by the message handler *)
| Next                     (* the runtime asks for the next prompt message *)
| TimerFired.              (* the 10 ms timer of a sleeping generator expires *)

(** [Next] resumes a generator that has not started or is suspended at its
    [yield]; [TimerFired] resumes a sleeping one; a push is possible at any
    suspension point.  An event that is not enabled changes nothing. *)
Definition drainStep (d : Drain) (e : DrainEvent) : Drain :=
  match e, pc d with
  | Push message, _ => mkDrain (queue d ++ [message]) (pc d) (emitted d)
  | Next, (NotStarted | AtYield) => resume d
  | TimerFired, Sleeping => resume d
  | _, _ => d
  end.

Definition drainRun (events : list DrainEvent) (d : Drain) : Drain :=
  foldl drainStep d events.

(** The event that resumes the generator from its current suspension. *)
Definition wake (d : Drain) : DrainEvent :=
  match pc d with Sleeping => TimerFired | _ => Next end.

(** [n] resumptions in a row, nothing pushed meanwhile. *)
Fixpoint pump (n : nat) (d : Drain) : Drain :=
  match n with
  | 0 => d
  | S n' => pump n' (drainStep d (wake d))
  end.

(** The messages handed to the runtime's prompt channel, oldest first. *)
Definition yieldedOf (outputs : list GenOutput) : list Value :=
  omap (λ o, match o with Yielded m => Some m | Waiting _ => None end) outputs.

(** The messages submitted, in submission order. *)
Definition pushedOf (events : list DrainEvent) : list Value :=
  omap (λ e, match e with Push m => Some m | _ => None end) events.

Definition initialDrain : Drain := mkDrain [] NotStarted [].

(** ** Runtime options (server.ts, [processMessages], lines 101-145) *)

(** What the broker takes from its host process. *)
Record ServerHost := mkServerHost {
  createSdkMcpServer : Value → Value;     (* of the agent SDK *)
  workspaceDirectory : string;
  processEnv : gmap string string         (* [process.env] *)
}.

(** The first four properties of the object literal: the defaults. *)
Definition defaultOptions (host : ServerHost) : gmap string Value :=
  <["settingSources" := VArr [VStr "local"]]>
  (<["cwd" := VStr (workspaceDirectory host)]>
  (<["canUseTool" := VFun 0]>
  (<["stderr" := VFun 1]> ∅))).

(** Lines 102-113: the startup [mcpServers], extended with the SDK server
    when tools were given. *)
Definition injectedMcpServers (host : ServerHost) (initialOptions : gmap string Value) : Value :=
  let mcpServers := jsOr (default VUndefined (initialOptions !! "mcpServers")) (VObj ∅) in
  let tools := default VUndefined (initialOptions !! "tools") in
  if truthy tools && lengthPositive tools then
    let sdkServer :=
      createSdkMcpServer host
        (VObj (<["name" := VStr "castari-agent"]>
              (<["version" := VStr "1.0.0"]>
              (<["tools" := tools]> ∅)))) in
    VObj (<["castari-agent" := sdkServer]> (spread mcpServers))
  else mcpServers.

(** Lines 136-144: the last spread of the literal. *)
Definition envOverride (host : ServerHost) (apiKey : Value) : gmap string Value :=
  let key := jsOr apiKey (ofOptStr (processEnv host !! "ANTHROPIC_API_KEY")) in
  if truthy key then
    {[ "env" := VObj (<["PATH" := ofOptStr (processEnv host !! "PATH")]>
                     (<["ANTHROPIC_API_KEY" := key]> ∅)) ]}
  else ∅.

(** Lines 115-145.  In an object literal a later property replaces an
    earlier one of the same name, so the literal is a union in which the
    later operand wins ([∪] on maps prefers its left operand).  [None] is the
    TypeError of [queryConfig.anthropicApiKey] on [null]. *)
Definition resolveOptions (host : ServerHost) (initialOptions : gmap string Value)
    (queryConfig : Value) : option (gmap string Value) :=
  apiKey ← getProp queryConfig "anthropicApiKey";
  Some (envOverride host apiKey
        ∪ (spread queryConfig
        ∪ <["mcpServers" := injectedMcpServers host initialOptions]>
            (initialOptions ∪ defaultOptions host))).

(** The resolution as the specification words it: the negotiated field if
    supplied, else the startup field if supplied, else the default. *)
Definition specThreeTier (host : ServerHost) (initialOptions : gmap string Value)
    (queryConfig : Value) (field : string) : option Value :=
  match spread queryConfig !! field with
  | Some v => Some v
  | None =>
      match initialOptions !! field with
      | Some v => Some v
      | None => defaultOptions host !! field
      end
  end.

(** ** Connection broker (server.ts, [serve], lines 189-269) *)

Definition Socket := nat.

Inductive WSOutputMessage :=
| Connected
| SdkMessage (data : Value)
| Info (data : string)
| ErrorOutput (error : string).

(** The module-level state of server.ts.  [activeStream] holds the options
    the running stream was created with. *)
Record Broker := mkBroker {
  activeConnection : option Socket;
  messageQueue : list Value;
  activeStream : option (gmap string Value);
  queryConfig : Value;
  connectionTokens : gmap string ConnectionToken;
  outbox : list (Socket * WSOutputMessage)     (* [ws.send] calls, oldest first *)
}.

Definition initialBroker : Broker :=
  mkBroker None [] None (VObj ∅) ∅ [].

(** A request as [fetch] reads it: [jsonBody] is the outcome of
    [req.json()], [None] when it rejects; [tokenParam] is
    [url.searchParams.get('token')]. *)
Record Request := mkRequest {
  pathname : string;
  method : string;
  tokenParam : option string;
  jsonBody : option Value
}.

Inductive Response :=
| JsonResponse (status : Z) (body : Value)
| TextResponse (status : Z) (body : string)
| Upgraded.                    (* [server.upgrade(req)] succeeded *)

(** What one run of the handler reads from its environment. *)
Record FetchEnv := mkFetchEnv {
  randomHex : string;     (* [randomBytes(24).toString('hex')] *)
  nowIssue : Z;           (* clock reading in [generateConnectionToken] *)
  nowSweep : Z;           (* clock reading in [cleanupTokens] *)
  nowCheck : Z;           (* clock reading in [validateAndUseToken] *)
  upgradeOk : bool        (* result of [server.upgrade(req)] *)
}.

Definition statusOf (r : Response) : option Z :=
  match r with
  | JsonResponse status _ | TextResponse status _ => Some status
  | Upgraded => None
  end.

Definition withTokens (b : Broker) (tokens : gmap string ConnectionToken) : Broker :=
  mkBroker (activeConnection b) (messageQueue b) (activeStream b) (queryConfig b)
           tokens (outbox b).

Definition withConfig (b : Broker) (config : Value) : Broker :=
  mkBroker (activeConnection b) (messageQueue b) (activeStream b) config
           (connectionTokens b) (outbox b).

(** The [fetch] handler, lines 195-236. *)
Definition fetch (env : FetchEnv) (req : Request) (b : Broker) : Response * Broker :=
  if bool_decide (pathname req = "/config") && bool_decide (method req = "POST") then
    match jsonBody req with
    | Some config =>
        let b := withConfig b config in
        let '(connectionToken, tokens) :=
          generateConnectionToken (randomHex env) (nowIssue env) (connectionTokens b) in
        (JsonResponse 200
           (VObj (<["success" := VBool true]>
                 (<["config" := queryConfig b]>
                 (<["connectionToken" := VStr connectionToken]> ∅)))),
         withTokens b tokens)
    | None =>
        (JsonResponse 400 (VObj {[ "error" := VStr "Invalid JSON" ]}), b)
    end
  else if bool_decide (pathname req = "/config") && bool_decide (method req = "GET") then
    (JsonResponse 200 (VObj {[ "config" := queryConfig b ]}), b)
  else if bool_decide (pathname req = "/ws") then
    let '(valid, tokens) :=
      validateAndUseToken (nowSweep env) (nowCheck env) (tokenParam req) (connectionTokens b) in
    let b := withTokens b tokens in
    if negb valid then (TextResponse 401 "Unauthorized", b)
    else if bool_decide (is_Some (activeConnection b)) then
      (TextResponse 409 "Server already has an active connection", b)
    else if upgradeOk env then (Upgraded, b)
    else (TextResponse 404 "Not Found", b)
  else (TextResponse 404 "Not Found", b).

Definition send (ws : Socket) (m : WSOutputMessage) (b : Broker) : Broker :=
  mkBroker (activeConnection b) (messageQueue b) (activeStream b) (queryConfig b)
           (connectionTokens b) (outbox b ++ [(ws, m)]).

(** The part of [processMessages] that runs before its first suspension:
    the options are resolved and the stream created; a TypeError is caught
    and reported to the active connection. *)
Definition processMessages (host : ServerHost) (initialOptions : gmap string Value)
    (b : Broker) : Broker :=
  match resolveOptions host initialOptions (queryConfig b) with
  | Some options =>
      mkBroker (activeConnection b) (messageQueue b) (Some options) (queryConfig b)
               (connectionTokens b) (outbox b)
  | None =>
      match activeConnection b with
      | Some ws => send ws (ErrorOutput "TypeError") b
      | None => b
      end
  end.

(** [websocket.open], lines 243-253. *)
Definition open (host : ServerHost) (initialOptions : gmap string Value)
    (ws : Socket) (b : Broker) : Broker :=
  let b := mkBroker (Some ws) (messageQueue b) (activeStream b) (queryConfig b)
                    (connectionTokens b) (outbox b) in
  let b := match activeStream b with
           | None => processMessages host initialOptions b
           | Some _ => b
           end in
  send ws Connected b.

(** [websocket.close], lines 263-267: [===] on sockets is identity. *)
Definition close (ws : Socket) (b : Broker) : Broker :=
  if bool_decide (activeConnection b = Some ws)
  then mkBroker None (messageQueue b) (activeStream b) (queryConfig b)
                (connectionTokens b) (outbox b)
  else b.

(** A token is spent in a store when it is absent or marked used: it can no
    longer be accepted. *)
Definition spent (t : string) (tokens : gmap string ConnectionToken) : Prop :=
  ∀ token, tokens !! t = Some token → used token = true.

(** ** The relays of [processMessages] and a run of the broker *)

(** Lines 163-171, the body of the [for await] loop: a message of the
    runtime is sent to the connection active at that moment, and is lost
    when there is none. *)
Definition relayMessage (data : Value) (b : Broker) : Broker :=
  match activeConnection b with
  | Some ws => send ws (SdkMessage data) b
  | None => b
  end.

(** Lines 124-132, the [stderr] callback given to the runtime. *)
Definition relayStderr (data : string) (b : Broker) : Broker :=
  match activeConnection b with
  | Some ws => send ws (Info data) b
  | None => b
  end.

(** What can happen to the broker: a request, the events of a socket, and
    the output of the runtime. *)
Inductive BrokerEvent :=
| OnFetch (env : FetchEnv) (req : Request)
| OnOpen (ws : Socket)
| OnClose (ws : Socket)
| OnRuntimeMessage (data : Value)
| OnStderr (data : string).

Definition brokerStep (host : ServerHost) (initialOptions : gmap string Value)
    (b : Broker) (e : BrokerEvent) : Broker :=
  match e with
  | OnFetch env req => (fetch env req b).2
  | OnOpen ws => open host initialOptions ws b
  | OnClose ws => close ws b
  | OnRuntimeMessage data => relayMessage data b
  | OnStderr data => relayStderr data b
  end.

Definition brokerRun (host : ServerHost) (initialOptions : gmap string Value)
    (events : list BrokerEvent) (b : Broker) : Broker :=
  foldl (brokerStep host initialOptions) b events.

(** The runtime messages relayed to sockets, oldest first. *)
Definition relayedOf (sent : list (Socket * WSOutputMessage)) : list (Socket * Value) :=
  omap (λ entry, match entry.2 with SdkMessage data => Some (entry.1, data) | _ => None end) sent.

End Server.

(** * The session manager: client.ts *)

Module Client.

(** ** Strings *)

(** [s.replace(/\/$/, '')]: one slash is removed, at the very end only. *)
Fixpoint stripTrailingSlash (s : string) : string :=
  match s with
  | EmptyString => EmptyString
  | String c rest =>
      if bool_decide (c = "/"%char) && negb (nonEmpty rest) then EmptyString
      else String c (stripTrailingSlash rest)
  end.

Fixpoint skip (n : nat) (s : string) : string :=
  match n, s with
  | S n', String _ rest => skip n' rest
  | _, _ => s
  end.

(** [s.replace(pattern, replacement)] with a string pattern: the leftmost
    occurrence only.  None of the replacements used contains a [$]. *)
Fixpoint replace (pattern replacement s : string) : string :=
  if String.prefix pattern s then replacement +:+ skip (String.length pattern) s
  else match s with
       | EmptyString => EmptyString
       | String c rest => String c (replace pattern replacement rest)
       end.

(** [s.includes(c)] for a one-character needle. *)
Fixpoint includes (c : ascii) (s : string) : bool :=
  match s with
  | EmptyString => false
  | String c' rest => bool_decide (c' = c) || includes c rest
  end.

(** [a || undefined] *)
Definition orUndefined (a : option string) : option string :=
  if truthyStr a then a else None.

(** ** Data *)

Definition DEFAULT_LOCAL_URL : string := "http://localhost:3000".
Definition DEFAULT_PLATFORM_URL : string :=
  "https://castari-api-12511-04c55b73-g4p2s9om.onporter.run".

Record ClientOptions := mkClientOptions {
  connectionUrl : option string;
  anthropicApiKey : option string;
  clientId : option string;
  platformApiKey : option string;
  snapshot : option string;
  labels : option (gmap string string);
  volume : option string;
  platformUrl : option string;
  resume : option string;
  useProxy : option bool;
  (* of [QueryConfig] *)
  agents : Value;
  allowedTools : Value;
  systemPrompt : Value;
  model : Value
}.

(** The [cleanup] closure of a connection: both of them are
    [() => this.stop({ delete: true })]. *)
Inductive Cleanup := StopAndDelete.

Record ConnectionDetails := mkConnection {
  configUrl : string;
  wsUrl : string;
  authHeaders : option (gmap string string);
  authParams : option (list (string * string));    (* in [Object.entries] order *)
  cleanup : option Cleanup
}.

(** The body of the platform's answer to /sandbox/start, as the code casts
    it. *)
Record SandboxDescriptor := mkSandbox {
  id : string;
  url : string;
  proxyUrl : option string;
  sandboxAuthHeaders : option (gmap string string);
  sandboxAuthParams : option (list (string * string))
}.

(** A response received; [json] is [None] when [response.json()] rejects.
    Reading the text of a received response is taken to succeed. *)
Record HttpResponse (A : Type) := mkHttpResponse {
  ok : bool;
  status : Z;
  text : string;
  json : option A
}.
Arguments mkHttpResponse {A}.
Arguments ok {A}.
Arguments status {A}.
Arguments text {A}.
Arguments json {A}.

(** What [fetch] does: reject (network-level failure) or resolve. *)
Inductive Outcome (A : Type) :=
| Rejected
| Responded (response : HttpResponse A).
Arguments Rejected {A}.
Arguments Responded {A}.

(** The JSON of /config's answer: its [connectionToken], if any. *)
Definition ConfigReply := option string.

(** Everything the client reads from outside: its options, the process
    environment, and how the network answers.  [configPost n] answers the
    configuration request number [n], [sandboxStop n] the stop request
    number [n] (both counted from 0 over the client's life). *)
Record Env := mkEnv {
  options : ClientOptions;
  processEnv : gmap string string;
  sandboxStart : Outcome SandboxDescriptor;
  configPost : nat → Outcome ConfigReply;
  sandboxStop : nat → Outcome unit;
  webSocketOpens : bool;
  formUrlEncode : string → string      (* the encoder of [URLSearchParams] *)
}.

Record ConfigPayload := mkPayload {
  payloadApiKey : string;
  payloadAgents : Value;
  payloadAllowedTools : Value;
  payloadSystemPrompt : Value;
  payloadModel : Value;
  payloadResume : option string
}.

(** What the client does to the outside world.  The output that depends on
    [debug] only is left out; [console.error] is kept. *)
Inductive Event :=
| SandboxStartRequest (target : string) (headers : gmap string string)
    (snapshot : option string) (labels : option (gmap string string))
    (volume : option string) (clientId : option string)
| ConfigRequest (target : string) (headers : gmap string string) (payload : ConfigPayload)
| SandboxStopRequest (target : string) (headers : gmap string string)
    (sandboxId : string) (delete : option bool) (clientId : option string)
| Sleep (ms : Z)
| WebSocketOpen (target : string)
| WebSocketClose
| ConsoleError (message : string).

(** The private fields of [CastariClient], the request counters and the
    trace, oldest event first. *)
Record State := mkState {
  ws : option string;               (* the socket, by the URL it was opened on *)
  sandboxId : option string;
  resolvedClientId : option string;
  resolvedPlatformApiKey : option string;
  configRequests : nat;
  stopRequests : nat;
  trace : list Event
}.

Definition newClient : State := mkState None None None None 0 0 [].

Inductive Exn :=
| Error (message : string)     (* [throw new Error(message)] *)
| FetchRejected                (* an unhandled rejection of [fetch] *)
| JsonRejected                 (* a rejection of [response.json()] *)
| WebSocketError.              (* [onerror] before [onopen] *)

Inductive Result (A : Type) :=
| Returned (a : A)
| Thrown (e : Exn).
Arguments Returned {A}.
Arguments Thrown {A}.

(** ** A state and exception monad *)

Definition M (A : Type) : Type := State → Result A * State.

Definition ret {A} (a : A) : M A := λ st, (Returned a, st).

Definition bind {A B} (m : M A) (k : A → M B) : M B :=
  λ st, match m st with
        | (Returned a, st') => k a st'
        | (Thrown e, st') => (Thrown e, st')
        end.

Definition throw {A} (e : Exn) : M A := λ st, (Thrown e, st).

Definition emit (e : Event) : M unit :=
  λ st, (Returned tt,
         mkState (ws st) (sandboxId st) (resolvedClientId st) (resolvedPlatformApiKey st)
                 (configRequests st) (stopRequests st) (trace st ++ [e])).

Definition get : M State := λ st, (Returned st, st).

Definition when (b : bool) (m : M unit) : M unit := if b then m else ret tt.

Declare Scope client_scope.
Delimit Scope client_scope with client.
Notation "x <- m ;; k" := (bind m (λ x, k))
  (at level 100, m at next level, right associativity) : client_scope.
Notation "m ;; k" := (bind m (λ _, k))
  (at level 100, right associativity) : client_scope.
Open Scope client_scope.

Definition setSandboxId (v : option string) : M unit :=
  λ st, (Returned tt,
         mkState (ws st) v (resolvedClientId st) (resolvedPlatformApiKey st)
                 (configRequests st) (stopRequests st) (trace st)).

Definition setWs (v : option string) : M unit :=
  λ st, (Returned tt,
         mkState v (sandboxId st) (resolvedClientId st) (resolvedPlatformApiKey st)
                 (configRequests st) (stopRequests st) (trace st)).

Definition setResolved (client key : option string) : M unit :=
  λ st, (Returned tt,
         mkState (ws st) (sandboxId st) client key
                 (configRequests st) (stopRequests st) (trace st)).

Definition countConfigRequest : M nat :=
  λ st, (Returned (configRequests st),
         mkState (ws st) (sandboxId st) (resolvedClientId st) (resolvedPlatformApiKey st)
                 (S (configRequests st)) (stopRequests st) (trace st)).

Definition countStopRequest : M nat :=
  λ st, (Returned (stopRequests st),
         mkState (ws st) (sandboxId st) (resolvedClientId st) (resolvedPlatformApiKey st)
                 (configRequests st) (S (stopRequests st)) (trace st)).

(** ** Requests *)

(** [(options.platformUrl || process.env.CASTARI_PLATFORM_URL ||
    DEFAULT_PLATFORM_URL).replace(/\/$/, '')] *)
Definition resolvePlatformUrl (env : Env) : string :=
  stripTrailingSlash
    (default DEFAULT_PLATFORM_URL
       (orElse (orElse (platformUrl (options env)) (processEnv env !! "CASTARI_PLATFORM_URL"))
               (Some DEFAULT_PLATFORM_URL))).

(** The headers of the two platform requests. *)
Definition platformHeaders (apiKey : option string) : gmap string string :=
  match apiKey with
  | Some key =>
      if nonEmpty key
      then <["Authorization" := "Bearer " +:+ key]> {[ "Content-Type" := "application/json" ]}
      else {[ "Content-Type" := "application/json" ]}
  | None => {[ "Content-Type" := "application/json" ]}
  end.

(** [stop], lines 308-340.  The argument is [None] when the caller passes
    none, and the default [{ delete: true }] applies; otherwise it is the
    [delete] property of the object passed.  Both failures of the request
    are caught or tested inside, and logged. *)
Definition stop (env : Env) (arg : option (option bool)) : M unit :=
  let delete := match arg with None => Some true | Some d => d end in
  st <- get ;;
  when (bool_decide (is_Some (ws st))) (emit WebSocketClose) ;;
  match sandboxId st with
  | Some sandbox =>
      if nonEmpty sandbox then
        let platformUrl := resolvePlatformUrl env in
        let clientId :=
          orElse (orElse (resolvedClientId st) (clientId (options env)))
                 (processEnv env !! "CASTARI_CLIENT_ID") in
        let apiKey :=
          orElse (orElse (resolvedPlatformApiKey st) (platformApiKey (options env)))
                 (processEnv env !! "CASTARI_API_KEY") in
        n <- countStopRequest ;;
        emit (SandboxStopRequest (platformUrl +:+ "/sandbox/stop") (platformHeaders apiKey)
                sandbox delete clientId) ;;
        match sandboxStop env n with
        | Rejected => emit (ConsoleError "Failed to call stop endpoint:")
        | Responded response =>
            if ok response then ret tt
            else emit (ConsoleError ("Failed to stop sandbox: " +:+ text response))
        end
      else ret tt
  | None => ret tt
  end.

Definition runCleanup (env : Env) (connection : ConnectionDetails) : M unit :=
  match cleanup connection with
  | Some StopAndDelete => stop env (Some (Some true))
  | None => ret tt
  end.

(** [setupLocalConnection], lines 194-203. *)
Definition setupLocalConnection (env : Env) : M ConnectionDetails :=
  let baseUrl :=
    stripTrailingSlash
      (default DEFAULT_LOCAL_URL
         (orElse (connectionUrl (options env)) (Some DEFAULT_LOCAL_URL))) in
  ret (mkConnection
         (replace "wss://" "https://" (replace "ws://" "http://" baseUrl) +:+ "/config")
         (replace "https://" "wss://" (replace "http://" "ws://" baseUrl) +:+ "/ws")
         None None None).

(** Line 246: [this.options.useProxy ?? (process.env.CASTARI_USE_PROXY !==
    'false')] *)
Definition resolveUseProxy (env : Env) : bool :=
  match useProxy (options env) with
  | Some b => b
  | None => negb (bool_decide (processEnv env !! "CASTARI_USE_PROXY" = Some "false"))
  end.

(** [setupPlatformConnection], lines 205-285. *)
Definition setupPlatformConnection (env : Env) : M ConnectionDetails :=
  st <- get ;;
  if negb (truthyStr (resolvedClientId st)) then
    throw (Error "CASTARI_CLIENT_ID is required when connecting via the Castari Platform")
  else
    let platformUrl := resolvePlatformUrl env in
    emit (SandboxStartRequest (platformUrl +:+ "/sandbox/start")
            (platformHeaders (resolvedPlatformApiKey st))
            (snapshot (options env)) (labels (options env)) (volume (options env))
            (resolvedClientId st)) ;;
    match sandboxStart env with
    | Rejected => throw FetchRejected
    | Responded response =>
        if negb (ok response) then
          throw (Error ("Failed to start sandbox: " +:+ text response))
        else
          match json response with
          | None => throw JsonRejected
          | Some sandbox =>
              setSandboxId (Some (id sandbox)) ;;
              let useProxy := resolveUseProxy env in
              if useProxy && truthyStr (proxyUrl sandbox) then
                ret (mkConnection
                       (platformUrl +:+ "/proxy/" +:+ id sandbox +:+ "/config")
                       (default EmptyString (proxyUrl sandbox))
                       None None (Some StopAndDelete))
              else
                let baseUrl := stripTrailingSlash (url sandbox) in
                ret (mkConnection
                       (replace "wss://" "https://" (replace "ws://" "http://" baseUrl) +:+ "/config")
                       (replace "http://" "ws://" (replace "https://" "wss://" baseUrl) +:+ "/ws")
                       (sandboxAuthHeaders sandbox) (sandboxAuthParams sandbox)
                       (Some StopAndDelete))
          end
    end.

(** ** [start], lines 69-192 *)

Definition maxConfigAttempts : nat := 5.

(** Lines 81-83: the choice of the connection target. *)
Definition connect (env : Env) : M ConnectionDetails :=
  if truthyStr (connectionUrl (options env))
  then setupLocalConnection env
  else setupPlatformConnection env.

(** Lines 102-105: [authHeaders] is spread after 'Content-Type'. *)
Definition configHeaders (connection : ConnectionDetails) : gmap string string :=
  default ∅ (authHeaders connection) ∪ {[ "Content-Type" := "application/json" ]}.

(** Lines 110-119: one POST; a rejection is turned into [null]. *)
Definition postConfig (env : Env) (connection : ConnectionDetails) (payload : ConfigPayload)
    : M (option (HttpResponse ConfigReply)) :=
  n <- countConfigRequest ;;
  emit (ConfigRequest (configUrl connection) (configHeaders connection) payload) ;;
  ret (match configPost env n with
       | Rejected => None
       | Responded response => Some response
       end).

(** [configResponse && configResponse.ok] *)
Definition succeeded (configResponse : option (HttpResponse ConfigReply)) : bool :=
  match configResponse with
  | Some response => ok response
  | None => false
  end.

(** Lines 109-131, the [for] loop from its test on.  [fuel] bounds the
    number of iterations for the termination checker; [start] gives it
    [maxConfigAttempts], which the loop test never lets run out. *)
Fixpoint configLoop (env : Env) (connection : ConnectionDetails) (payload : ConfigPayload)
    (fuel attempt : nat) (configResponse : option (HttpResponse ConfigReply))
    : M (option (HttpResponse ConfigReply)) :=
  match fuel with
  | 0 => ret configResponse
  | S fuel' =>
      if (attempt <=? maxConfigAttempts)%nat then
        configResponse <- postConfig env connection payload ;;
        if succeeded configResponse then ret configResponse
        else
          when (attempt <? maxConfigAttempts)%nat (emit (Sleep 3000)) ;;
          configLoop env connection payload fuel' (S attempt) configResponse
      else ret configResponse
  end.

(** [`${configResponse?.status ?? 'n/a'}`] *)
Definition statusText (configResponse : option (HttpResponse ConfigReply)) : string :=
  match configResponse with
  | Some response => pretty (status response)
  | None => "n/a"
  end.

(** Lines 89-96: the payload [start] sends. *)
Definition payloadOf (env : Env) (anthropicApiKey : string) : ConfigPayload :=
  mkPayload anthropicApiKey (agents (options env)) (allowedTools (options env))
            (systemPrompt (options env)) (model (options env)) (resume (options env)).

(** Lines 89-139: the payload, the retry loop, and the failure after it.
    Returns the response that succeeded. *)
Definition configure (env : Env) (connection : ConnectionDetails) (apiKey : string)
    : M (HttpResponse ConfigReply) :=
  let configPayload := payloadOf env apiKey in
  configResponse <- configLoop env connection configPayload maxConfigAttempts 1 None ;;
  match configResponse with
  | Some response =>
      if ok response then ret response
      else
        runCleanup env connection ;;
        throw (Error ("Failed to configure server (status " +:+ statusText configResponse
                      +:+ "): " +:+ text response))
  | None =>
      runCleanup env connection ;;
      throw (Error ("Failed to configure server (status " +:+ statusText configResponse
                    +:+ "): " +:+ "no response"))
  end.

(** [URLSearchParams.set]: the first pair named [key] takes the value, the
    other ones are removed; a new name is appended. *)
Fixpoint paramsSet (key value : string) (params : list (string * string))
    : list (string * string) :=
  match params with
  | [] => [(key, value)]
  | (k, v) :: rest =>
      if bool_decide (k = key)
      then (key, value) :: filter (λ kv : string * string, kv.1 ≠ key) rest
      else (k, v) :: paramsSet key value rest
  end.

(** [URLSearchParams.toString] *)
Fixpoint paramsToString (encode : string → string) (params : list (string * string)) : string :=
  match params with
  | [] => EmptyString
  | [(k, v)] => encode k +:+ "=" +:+ encode v
  | (k, v) :: rest => encode k +:+ "=" +:+ encode v +:+ "&" +:+ paramsToString encode rest
  end.

(** Lines 150-160 *)
Definition webSocketUrl (env : Env) (connection : ConnectionDetails) (connectionToken : string)
    : string :=
  let wsUrlParams :=
    foldl (λ params kv, paramsSet kv.1 kv.2 params)
          (paramsSet "token" connectionToken [])
          (default [] (authParams connection)) in
  let wsUrlJoiner := if includes "?"%char (wsUrl connection) then "&" else "?" in
  wsUrl connection +:+ wsUrlJoiner +:+ paramsToString (formUrlEncode env) wsUrlParams.

(** Lines 141-191: the token is read from the response and the socket
    opened; the promise resolves on [onopen]; on [onerror] the error is
    logged with [console.error] and the promise rejects. *)
Definition handshake (env : Env) (connection : ConnectionDetails)
    (configResponse : HttpResponse ConfigReply) : M unit :=
  match json configResponse with
  | None => throw JsonRejected
  | Some connectionToken =>
      if negb (truthyStr connectionToken) then
        runCleanup env connection ;;
        throw (Error "Server did not return a connectionToken")
      else
        let target := webSocketUrl env connection (default EmptyString connectionToken) in
        emit (WebSocketOpen target) ;;
        setWs (Some target) ;;
        if webSocketOpens env then ret tt
        else
          emit (ConsoleError "WebSocket error:") ;;
          throw WebSocketError
  end.

(** Lines 76-79 *)
Definition resolveIdentity (env : Env) : M unit :=
  setResolved
    (orUndefined (orElse (clientId (options env)) (processEnv env !! "CASTARI_CLIENT_ID")))
    (orUndefined (orElse (platformApiKey (options env)) (processEnv env !! "CASTARI_API_KEY"))).

(** Lines 70-71 *)
Definition resolveApiKey (env : Env) : option string :=
  orElse (anthropicApiKey (options env)) (processEnv env !! "ANTHROPIC_API_KEY").

Definition start (env : Env) : M unit :=
  let anthropicApiKey := resolveApiKey env in
  if negb (truthyStr anthropicApiKey) then throw (Error "ANTHROPIC_API_KEY is required")
  else
    resolveIdentity env ;;
    connection <- connect env ;;
    configResponse <- configure env connection (default EmptyString anthropicApiKey) ;;
    handshake env connection configResponse.

(** ** Reading traces *)


Definition isSandboxStart (e : Event) : bool :=
  match e with SandboxStartRequest _ _ _ _ _ _ => true | _ => false end.

(** The sandbox ids and [delete] flags carried by the stop requests of a
    trace. *)
Definition stopsOf (events : list Event) : list (string * option bool) :=
  omap (λ e, match e with SandboxStopRequest _ _ s d _ => Some (s, d) | _ => None end) events.

Definition sleepsOf (events : list Event) : list Z :=
  omap (λ e, match e with Sleep ms => Some ms | _ => None end) events.

Definition errorsOf (events : list Event) : list string :=
  omap (λ e, match e with ConsoleError message => Some message | _ => None end) events.

(** The events a computation has added to the trace of [before]. *)
Definition newEvents (before after : State) : list Event :=
  drop (length (trace before)) (trace after).

(** The targets of the configuration requests and of the sockets opened. *)
Definition configTargets (events : list Event) : list string :=
  omap (λ e, match e with ConfigRequest target _ _ => Some target | _ => None end) events.

Definition socketTargets (events : list Event) : list string :=
  omap (λ e, match e with WebSocketOpen target => Some target | _ => None end) events.

(** [k] failed attempts, each followed by its wait. *)
Fixpoint failedAttempts (request : Event) (k : nat) : list Event :=
  match k with
  | 0 => []
  | S k' => request :: Sleep 3000 :: failedAttempts request k'
  end.

(** The attempt numbered [n] failed: the request was rejected, or answered
    with a status that is not a success. *)
Definition attemptFailed (env : Env) (n : nat) : bool :=
  match configPost env n with
  | Rejected => true
  | Responded response => negb (ok response)
  end.

Definition requestOf (env : Env) (connection : ConnectionDetails) (apiKey : string) : Event :=
  ConfigRequest (configUrl connection) (configHeaders connection) (payloadOf env apiKey).

(** What [configPost] answers, seen through [.catch(() => null)]. *)
Definition responseAt (env : Env) (n : nat) : option (HttpResponse ConfigReply) :=
  match configPost env n with
  | Rejected => None
  | Responded response => Some response
  end.

(** The state after [n] more configuration requests and the events [events]. *)
Definition advance (st : State) (n : nat) (events : list Event) : State :=
  mkState (ws st) (sandboxId st) (resolvedClientId st) (resolvedPlatformApiKey st)
          (n + configRequests st) (stopRequests st) (trace st ++ events).

(** An event that a session on [connection] may produce once the
    connection is chosen: requests to its configuration URL, a socket on
    its transport URL, waits, teardown, logging; no provisioning. *)
Definition fromConnection (env : Env) (connection : ConnectionDetails) (e : Event) : Prop :=
  match e with
  | SandboxStartRequest _ _ _ _ _ _ => False
  | ConfigRequest target _ _ => target = configUrl connection
  | WebSocketOpen target => ∃ token, target = webSocketUrl env connection token
  | _ => True
  end.

(** An event of the teardown: closing the socket, the stop request, the
    log of its failure. *)
Definition teardownEvent (e : Event) : Prop :=
  match e with
  | WebSocketClose | SandboxStopRequest _ _ _ _ _ | ConsoleError _ => True
  | _ => False
  end.

(** Whatever the state it starts from, [m] only adds events that satisfy
    [P] to the trace. *)
Definition only {A} (P : Event → Prop) (m : M A) : Prop :=
  ∀ st, ∃ events, trace (m st).2 = trace st ++ events ∧ Forall P events.


(** [pattern] occurs somewhere in [s]. *)
Fixpoint occurs (pattern s : string) : bool :=
  String.prefix pattern s
  || match s with
     | EmptyString => false
     | String _ rest => occurs pattern rest
     end.

(** None of the four scheme prefixes occurs in [s]. *)
Definition schemeFree (s : string) : bool :=
  negb (occurs "http://" s) && negb (occurs "https://" s)
  && negb (occurs "ws://" s) && negb (occurs "wss://" s).

(** ** Message handlers (lines 58 and 287-299) *)

(** A callback, by identity: [h !== handler] compares functions by
    identity. *)
Definition Handler := nat.

(** [onMessage]: [this.messageHandlers.push(handler)] *)
Definition onMessage (handler : Handler) (messageHandlers : list Handler) : list Handler :=
  messageHandlers ++ [handler].

(** The function [onMessage] returns:
    [this.messageHandlers = this.messageHandlers.filter(h => h !== handler)] *)
Definition unsubscribe (handler : Handler) (messageHandlers : list Handler) : list Handler :=
  filter (λ h, h ≠ handler) messageHandlers.

(** [handleMessage]: the calls made by [forEach], in order. *)
Definition handleMessage {Msg : Type} (message : Msg) (messageHandlers : list Handler)
    : list (Handler * Msg) :=
  (λ handler, (handler, message)) <$> messageHandlers.

(** ** Reading states and traces, continued *)

(** [m] leaves the sandbox id of the client as it found it. *)
Definition keepsSandbox {A} (m : M A) : Prop :=
  ∀ st, sandboxId (m st).2 = sandboxId st.

(** An event of a session on [connection] with the credential [apiKey],
    in full: the configuration request is the one of [start], every wait is
    3000 ms, the socket is opened on the connection's transport URL. *)
Definition sessionEvent (env : Env) (connection : ConnectionDetails) (apiKey : string)
    (e : Event) : Prop :=
  match e with
  | SandboxStartRequest _ _ _ _ _ _ => False
  | ConfigRequest _ _ _ => e = requestOf env connection apiKey
  | WebSocketOpen target => ∃ token, target = webSocketUrl env connection token
  | Sleep ms => ms = 3000%Z
  | _ => True
  end.

(** An event that involves the platform. *)
Definition platformEvent (e : Event) : bool :=
  match e with
  | SandboxStartRequest _ _ _ _ _ _ | SandboxStopRequest _ _ _ _ _ => true
  | _ => false
  end.

(** ** The endpoints as the specification words them *)

(** The substitution of the scheme: the scheme at the head of the URL is
    exchanged for its counterpart and the rest of the URL is kept. *)
Definition specToHttp (base : string) : string :=
  if String.prefix "ws://" base then "http://" +:+ skip 5 base
  else if String.prefix "wss://" base then "https://" +:+ skip 6 base
  else base.

Definition specToWs (base : string) : string :=
  if String.prefix "http://" base then "ws://" +:+ skip 7 base
  else if String.prefix "https://" base then "wss://" +:+ skip 8 base
  else base.

(** Lines 150-157: the parameters of the socket URL, before they are
    serialised. *)
Definition wsUrlParams (connection : ConnectionDetails) (connectionToken : string)
    : list (string * string) :=
  foldl (λ params kv, paramsSet kv.1 kv.2 params)
        (paramsSet "token" connectionToken [])
        (default [] (authParams connection)).

(** Line 159 *)
Definition wsUrlJoiner (connection : ConnectionDetails) : string :=
  if includes "?"%char (wsUrl connection) then "&" else "?".

End Client.

(** * Properties of the broker *)

Module ServerProps.
Import Server.

(** ** Token store *)

Lemma cleanup_lookup_Some now (tokens : gmap string ConnectionToken) k token :
  cleanupTokens now tokens !! k = Some token ↔
  tokens !! k = Some token ∧ swept now token = false.
Proof. unfold cleanupTokens. by rewrite map_lookup_filter_Some. Qed.

Lemma cleanup_lookup_None now (tokens : gmap string ConnectionToken) k token :
  tokens !! k = Some token → swept now token = true →
  cleanupTokens now tokens !! k = None.
Proof.
  intros Hk Hs. destruct (cleanupTokens now tokens !! k) as [token'|] eqn:E; [|done].
  apply cleanup_lookup_Some in E as [E1 E2]. congruence.
Qed.

Lemma cleanup_absent now (tokens : gmap string ConnectionToken) k :
  tokens !! k = None → cleanupTokens now tokens !! k = None.
Proof.
  intros Hk. destruct (cleanupTokens now tokens !! k) as [token'|] eqn:E; [|done].
  apply cleanup_lookup_Some in E as [E1 E2]. congruence.
Qed.

(** What a call leaves under a key, in terms of the swept store. *)
Lemma validate_store nowSweep nowCheck presented (tokens : gmap string ConnectionToken) k :
  let swept_store := cleanupTokens nowSweep tokens in
  let after := (validateAndUseToken nowSweep nowCheck presented tokens).2 in
  after !! k = swept_store !! k
  ∨ (presented = Some k ∧ after !! k = None)
  ∨ (presented = Some k ∧ ∃ token, swept_store !! k = Some token ∧
       (validateAndUseToken nowSweep nowCheck presented tokens).1 = true ∧
       after !! k = Some (mkToken (value token) (createdAt token) true)).
Proof.
  unfold validateAndUseToken. cbn zeta.
  destruct presented as [v|]; [|by left].
  destruct (nonEmpty v); [|by left]. cbn [negb].
  destruct (cleanupTokens nowSweep tokens !! v) as [token|] eqn:E; [|by left].
  destruct (decide (v = k)) as [->|Hne].
  - destruct (used token || isExpired nowCheck token); cbn [snd fst].
    + right; left. by rewrite lookup_delete_eq.
    + right; right. split; [done|]. exists token. by rewrite lookup_insert_eq.
  - left. destruct (used token || isExpired nowCheck token); cbn [snd].
    + by rewrite lookup_delete_ne.
    + by rewrite lookup_insert_ne.
Qed.

Lemma spent_swept now t (tokens : gmap string ConnectionToken) :
  spent t tokens → cleanupTokens now tokens !! t = None.
Proof.
  intros Hs. destruct (tokens !! t) as [token|] eqn:E.
  - apply (cleanup_lookup_None _ _ _ token); [done|].
    unfold swept. by rewrite (Hs token E).
  - by apply cleanup_absent.
Qed.

Lemma validate_spent_rejects nowSweep nowCheck t (tokens : gmap string ConnectionToken) :
  spent t tokens →
  (validateAndUseToken nowSweep nowCheck (Some t) tokens).1 = false.
Proof.
  intros Hs. unfold validateAndUseToken. cbn zeta.
  destruct (nonEmpty t); [|done]. cbn [negb].
  by rewrite (spent_swept nowSweep t tokens Hs).
Qed.

Lemma validate_keeps_spent nowSweep nowCheck presented t (tokens : gmap string ConnectionToken) :
  spent t tokens →
  spent t (validateAndUseToken nowSweep nowCheck presented tokens).2.
Proof.
  intros Hs token.
  destruct (validate_store nowSweep nowCheck presented tokens t)
    as [-> | [[_ ->] | [_ (token' & E & _ & ->)]]].
  - by rewrite (spent_swept nowSweep t tokens Hs).
  - done.
  - by intros [= <-].
Qed.

Lemma validate_accept_spends nowSweep nowCheck t (tokens : gmap string ConnectionToken) :
  (validateAndUseToken nowSweep nowCheck (Some t) tokens).1 = true →
  spent t (validateAndUseToken nowSweep nowCheck (Some t) tokens).2.
Proof.
  unfold validateAndUseToken. cbn zeta.
  destruct (nonEmpty t); [|done]. cbn [negb].
  destruct (cleanupTokens nowSweep tokens !! t) as [token|] eqn:E; [|done].
  destruct (used token || isExpired nowCheck token); [done|].
  cbn [fst snd]. intros _ token'. rewrite lookup_insert_eq. by intros [= <-].
Qed.

Lemma validateAll_keeps_spent calls t (tokens : gmap string ConnectionToken) :
  spent t tokens → spent t (validateAll calls tokens).2.
Proof.
  revert tokens. induction calls as [|c calls IH]; intros tokens Hs; [done|].
  cbn [validateAll].
  pose proof (validate_keeps_spent (callSweep c) (callCheck c) (callToken c) t tokens Hs) as H1.
  destruct (validateAndUseToken _ _ _ tokens) as [r tokens1]. cbn [snd] in H1.
  specialize (IH tokens1 H1).
  destruct (validateAll calls tokens1) as [rs tokens2]. done.
Qed.

Lemma accepted_spent calls t (tokens : gmap string ConnectionToken) :
  spent t tokens → accepted t calls (validateAll calls tokens).1 = 0.
Proof.
  revert tokens. induction calls as [|c calls IH]; intros tokens Hs; [done|].
  cbn [validateAll].
  pose proof (validate_keeps_spent (callSweep c) (callCheck c) (callToken c) t tokens Hs) as H1.
  assert (callToken c = Some t →
          (validateAndUseToken (callSweep c) (callCheck c) (callToken c) tokens).1 = false) as H2.
  { intros ->. by apply validate_spent_rejects. }
  destruct (validateAndUseToken _ _ _ tokens) as [r tokens1]. cbn [fst snd] in *.
  specialize (IH tokens1 H1).
  destruct (validateAll calls tokens1) as [rs tokens2]. cbn [fst] in *.
  cbn [accepted]. rewrite IH.
  case_bool_decide as Hc; [|done]. by rewrite (H2 Hc).
Qed.

Lemma accepted_at_most_once calls t (tokens : gmap string ConnectionToken) :
  accepted t calls (validateAll calls tokens).1 ≤ 1.
Proof.
  revert tokens. induction calls as [|c calls IH]; intros tokens; [cbn; lia|].
  cbn [validateAll].
  pose proof (accepted_spent calls t) as Hzero.
  assert (callToken c = Some t →
          (validateAndUseToken (callSweep c) (callCheck c) (callToken c) tokens).1 = true →
          spent t (validateAndUseToken (callSweep c) (callCheck c) (callToken c) tokens).2) as H2.
  { intros ->. apply validate_accept_spends. }
  destruct (validateAndUseToken _ _ _ tokens) as [r tokens1]. cbn [fst snd] in *.
  specialize (IH tokens1). specialize (Hzero tokens1).
  destruct (validateAll calls tokens1) as [rs tokens2]. cbn [fst] in *.
  cbn [accepted].
  case_bool_decide as Hc; cbn [andb]; [|lia].
  destruct r; [|lia]. rewrite Hzero; [lia|]. by apply H2.
Qed.

(** C2.  For every token [t], every store and every sequence of calls of
    [validateAndUseToken], at most one call presenting [t] returns true;
    and once a call presenting [t] has returned true, every call presenting
    [t] after any further calls returns false. *)
Theorem token_single_use (t : string) (tokens : gmap string ConnectionToken) :
  (∀ calls, accepted t calls (validateAll calls tokens).1 ≤ 1) ∧
  (∀ first later again,
     callToken first = Some t → callToken again = Some t →
     (validateAndUseToken (callSweep first) (callCheck first) (callToken first) tokens).1 = true →
     (validateAndUseToken (callSweep again) (callCheck again) (callToken again)
        (validateAll later
           (validateAndUseToken (callSweep first) (callCheck first) (callToken first) tokens).2).2).1
     = false).
Proof.
  split; [intros calls; apply accepted_at_most_once|].
  intros first later again Hf Ha Htrue. rewrite Ha.
  apply validate_spent_rejects, validateAll_keeps_spent.
  rewrite Hf in *. by apply validate_accept_spends.
Qed.

Lemma token_single_use_witness :
  let tokens := (generateConnectionToken "ab12" 0 ∅).2 in
  let first := mkCall 1000 1000 (Some "ab12") in
  let again := mkCall 3000 3000 (Some "ab12") in
  (validateAndUseToken (callSweep first) (callCheck first) (callToken first) tokens).1 = true ∧
  (validateAndUseToken (callSweep again) (callCheck again) (callToken again)
     (validateAll [mkCall 2000 2000 None]
        (validateAndUseToken (callSweep first) (callCheck first) (callToken first) tokens).2).2).1
  = false.
Proof.
  intros tokens first again.
  assert ((validateAndUseToken (callSweep first) (callCheck first) (callToken first) tokens).1
          = true) as Hfirst by (vm_compute; reflexivity).
  split; [exact Hfirst|].
  exact (proj2 (token_single_use "ab12" tokens) first [mkCall 2000 2000 None] again
           eq_refl eq_refl Hfirst).
Defined.

(** Issuing other tokens in between changes nothing: as long as [t] itself
    is not issued again, a spent [t] stays rejected. *)
Lemma storeRun_keeps_spent ops t (tokens : gmap string ConnectionToken) :
  Forall (λ op, ¬ issues t op) ops → spent t tokens →
  spent t (storeRun ops tokens).2 ∧
  Forall (λ pr : option string * bool, pr.1 = Some t → pr.2 = false) (storeRun ops tokens).1.
Proof.
  revert tokens. induction ops as [|op ops IH]; intros tokens Hno Hs; [by split|].
  apply Forall_cons in Hno as [Hop Hno].
  destruct op as [hex now|c]; cbn [storeRun].
  - apply IH; [done|]. cbn. intros token. cbn in Hop.
    rewrite lookup_insert_ne; [apply Hs|done].
  - pose proof (validate_keeps_spent (callSweep c) (callCheck c) (callToken c) t tokens Hs) as H1.
    assert (callToken c = Some t →
            (validateAndUseToken (callSweep c) (callCheck c) (callToken c) tokens).1 = false) as H2.
    { intros ->. by apply validate_spent_rejects. }
    destruct (validateAndUseToken _ _ _ tokens) as [r tokens1]. cbn [fst snd] in *.
    destruct (IH tokens1 Hno H1) as [IH1 IH2].
    destruct (storeRun ops tokens1) as [rs tokens2]. cbn [fst snd] in *.
    split; [done|]. apply Forall_cons. by split.
Qed.


(** C3.  The TTL is five minutes.  A token whose age exceeds it at either
    clock reading of the call is rejected, used or not; and whatever is
    presented, [null] included, the call leaves no token that was marked
    used or too old when it started, while the other tokens that were not
    presented stay as they were. *)
Theorem expiry_and_sweep (nowSweep nowCheck : Z) (tokens : gmap string ConnectionToken) :
  CONNECTION_TOKEN_TTL_MS = 300000%Z ∧
  (∀ t token,
     tokens !! t = Some token →
     (nowSweep - createdAt token > CONNECTION_TOKEN_TTL_MS
      ∨ nowCheck - createdAt token > CONNECTION_TOKEN_TTL_MS)%Z →
     (validateAndUseToken nowSweep nowCheck (Some t) tokens).1 = false) ∧
  (∀ presented k token,
     tokens !! k = Some token →
     used token = true ∨ (nowSweep - createdAt token > CONNECTION_TOKEN_TTL_MS)%Z →
     (validateAndUseToken nowSweep nowCheck presented tokens).2 !! k = None) ∧
  (∀ presented k token,
     tokens !! k = Some token → presented ≠ Some k →
     used token = false → (nowSweep - createdAt token ≤ CONNECTION_TOKEN_TTL_MS)%Z →
     (validateAndUseToken nowSweep nowCheck presented tokens).2 !! k = Some token).
Proof.
  split; [reflexivity|]. split; [|split].
  - intros t token Ht Hage. unfold validateAndUseToken. cbn zeta.
    destruct (nonEmpty t); [|done]. cbn [negb].
    destruct (cleanupTokens nowSweep tokens !! t) as [token'|] eqn:E; [|done].
    apply cleanup_lookup_Some in E as [E1 E2].
    assert (token' = token) as -> by congruence.
    unfold swept in E2. apply orb_false_iff in E2 as [Hu He].
    unfold isExpired in *. apply Z.ltb_ge in He.
    destruct Hage as [Hage|Hage]; [lia|].
    assert ((CONNECTION_TOKEN_TTL_MS <? nowCheck - createdAt token)%Z = true) as ->
      by (apply Z.ltb_lt; lia).
    by rewrite orb_true_r.
  - intros presented k token Hk Hstale.
    assert (cleanupTokens nowSweep tokens !! k = None) as Hgone.
    { apply (cleanup_lookup_None _ _ _ token); [done|]. unfold swept, isExpired.
      destruct Hstale as [->|Hage]; [done|].
      apply orb_true_iff. right. apply Z.ltb_lt. lia. }
    destruct (validate_store nowSweep nowCheck presented tokens k)
      as [-> | [[_ ->] | [_ (token' & E & _)]]]; [done|done|congruence].
  - intros presented k token Hk Hne Hu Hage.
    assert (cleanupTokens nowSweep tokens !! k = Some token) as Hkept.
    { apply cleanup_lookup_Some. split; [done|]. unfold swept, isExpired.
      rewrite Hu. cbn. apply Z.ltb_ge. lia. }
    destruct (validate_store nowSweep nowCheck presented tokens k)
      as [-> | [[? _] | [? _]]]; done.
Qed.

Lemma expiry_and_sweep_witness :
  let old := mkToken "0a" 0 false in
  let spentToken := mkToken "0b" 400000 true in
  let fresh := mkToken "0c" 400000 false in
  let tokens : gmap string ConnectionToken :=
    <["0a" := old]> (<["0b" := spentToken]> (<["0c" := fresh]> ∅)) in
  (validateAndUseToken 300001 300001 (Some "0a") tokens).1 = false ∧
  (validateAndUseToken 300001 300001 None tokens).2 !! "0a" = None ∧
  (validateAndUseToken 300001 300001 None tokens).2 !! "0b" = None ∧
  (validateAndUseToken 300001 300001 None tokens).2 !! "0c" = Some fresh.
Proof.
  intros old spentToken fresh tokens.
  destruct (expiry_and_sweep 300001 300001 tokens) as (_ & Hreject & Hsweep & Hkeep).
  split; [|split; [|split]].
  - apply (Hreject "0a" old); [reflexivity|]. left. vm_compute. reflexivity.
  - apply (Hsweep None "0a" old); [reflexivity|]. right. vm_compute. reflexivity.
  - apply (Hsweep None "0b" spentToken); [reflexivity|]. left. reflexivity.
  - apply (Hkeep None "0c" fresh); [reflexivity|discriminate|reflexivity|].
    vm_compute. discriminate.
Defined.

(** ** The /config and /ws endpoints *)

(** C9.  A POST to /config whose body does not parse is answered with
    status 400 and leaves the broker as it was: the stored configuration is
    the same and no token has been issued. *)
Theorem config_invalid_json (env : FetchEnv) (req : Request) (b : Broker) :
  pathname req = "/config" → method req = "POST" → jsonBody req = None →
  fetch env req b = (JsonResponse 400 (VObj {[ "error" := VStr "Invalid JSON" ]}), b) ∧
  queryConfig (fetch env req b).2 = queryConfig b ∧
  connectionTokens (fetch env req b).2 = connectionTokens b.
Proof.
  intros Hp Hm Hj.
  assert (fetch env req b = (JsonResponse 400 (VObj {[ "error" := VStr "Invalid JSON" ]}), b)) as ->.
  { unfold fetch. rewrite Hp, Hm, Hj. reflexivity. }
  done.
Qed.

Lemma config_invalid_json_witness :
  let req := mkRequest "/config" "POST" None None in
  let env := mkFetchEnv "00ff" 10 10 10 true in
  fetch env req initialBroker
  = (JsonResponse 400 (VObj {[ "error" := VStr "Invalid JSON" ]}), initialBroker).
Proof.
  intros req env.
  exact (proj1 (config_invalid_json env req initialBroker eq_refl eq_refl eq_refl)).
Defined.

(** A body that parses replaces the configuration and issues a token: the
    error path above is the only one that leaves the state alone. *)
Lemma config_valid_json (env : FetchEnv) (req : Request) (b : Broker) config :
  pathname req = "/config" → method req = "POST" → jsonBody req = Some config →
  statusOf (fetch env req b).1 = Some 200%Z ∧
  queryConfig (fetch env req b).2 = config ∧
  connectionTokens (fetch env req b).2 !! randomHex env
  = Some (mkToken (randomHex env) (nowIssue env) false).
Proof.
  intros Hp Hm Hj. unfold fetch. rewrite Hp, Hm, Hj.
  unfold generateConnectionToken, withTokens, withConfig.
  cbn [bool_decide andb fst snd statusOf queryConfig connectionTokens].
  rewrite !bool_decide_eq_true_2 by done. cbn [andb fst snd statusOf queryConfig connectionTokens].
  split; [done|]. split; [done|]. by rewrite lookup_insert_eq.
Qed.

(** The answer on /ws when a connection is active. *)
Lemma fetch_ws_active (env : FetchEnv) (req : Request) (b : Broker) :
  pathname req = "/ws" → is_Some (activeConnection b) →
  fetch env req b =
  let '(valid, tokens) :=
    validateAndUseToken (nowSweep env) (nowCheck env) (tokenParam req) (connectionTokens b) in
  (if valid then TextResponse 409 "Server already has an active connection"
   else TextResponse 401 "Unauthorized",
   withTokens b tokens).
Proof.
  intros Hp Ha. unfold fetch. rewrite Hp. cbn [bool_decide andb].
  rewrite !bool_decide_eq_false_2 by done. cbn [andb].
  rewrite bool_decide_eq_true_2 by done.
  destruct (validateAndUseToken _ _ _ _) as [valid tokens].
  destruct valid; cbn [negb]; [|done].
  rewrite bool_decide_eq_true_2; done.
Qed.

(** C1, as amended.  While a connection is active a request on /ws is never
    upgraded and the active connection stays; the token is validated first,
    so the answer is 401 when the validation fails and 409 when it
    succeeds, and in the latter case the token has been consumed. *)
Theorem upgrade_while_active (env : FetchEnv) (req : Request) (b : Broker) :
  pathname req = "/ws" → is_Some (activeConnection b) →
  let valid :=
    (validateAndUseToken (nowSweep env) (nowCheck env) (tokenParam req) (connectionTokens b)).1 in
  (fetch env req b).1 ≠ Upgraded ∧
  activeConnection (fetch env req b).2 = activeConnection b ∧
  statusOf (fetch env req b).1 = Some (if valid then 409 else 401)%Z ∧
  (valid = true → ∀ t, tokenParam req = Some t → spent t (connectionTokens (fetch env req b).2)).
Proof.
  intros Hp Ha valid. rewrite (fetch_ws_active env req b Hp Ha). subst valid.
  pose proof (validate_accept_spends (nowSweep env) (nowCheck env)) as Hs.
  destruct (validateAndUseToken _ _ (tokenParam req) _) as [valid tokens] eqn:E.
  cbn [fst snd]. split; [by destruct valid|]. split; [done|]. split; [by destruct valid|].
  intros -> t Ht. rewrite Ht in E. specialize (Hs t (connectionTokens b)).
  rewrite E in Hs. by apply Hs.
Qed.

Lemma upgrade_while_active_witness :
  let b := mkBroker (Some 1) [] None (VObj ∅) (generateConnectionToken "c0de" 0 ∅).2 [] in
  let env := mkFetchEnv "00ff" 10 10 10 true in
  statusOf (fetch env (mkRequest "/ws" "GET" (Some "c0de") None) b).1 = Some 409%Z ∧
  statusOf (fetch env (mkRequest "/ws" "GET" (Some "beef") None) b).1 = Some 401%Z.
Proof.
  intros b env. split.
  - exact (proj1 (proj2 (proj2
      (upgrade_while_active env (mkRequest "/ws" "GET" (Some "c0de") None) b
         eq_refl (ex_intro _ 1 eq_refl))))).
  - exact (proj1 (proj2 (proj2
      (upgrade_while_active env (mkRequest "/ws" "GET" (Some "beef") None) b
         eq_refl (ex_intro _ 1 eq_refl))))).
Defined.

(** C1, as stated, fails: with a connection active, a request whose token
    is unknown is answered 401, not 409. *)
Lemma upgrade_conflict_counterexample :
  ¬ (∀ (env : FetchEnv) (req : Request) (b : Broker),
       pathname req = "/ws" → is_Some (activeConnection b) →
       statusOf (fetch env req b).1 = Some 409%Z).
Proof.
  intros H.
  specialize (H (mkFetchEnv "00ff" 10 10 10 true)
                (mkRequest "/ws" "GET" (Some "beef") None)
                (mkBroker (Some 1) [] None (VObj ∅) ∅ [])
                eq_refl (ex_intro _ 1 eq_refl)).
  vm_compute in H. discriminate H.
Qed.

(** Without an active connection a valid token does upgrade. *)
Lemma upgrade_when_idle (env : FetchEnv) (req : Request) (b : Broker) :
  pathname req = "/ws" → activeConnection b = None → upgradeOk env = true →
  (validateAndUseToken (nowSweep env) (nowCheck env) (tokenParam req) (connectionTokens b)).1 = true →
  (fetch env req b).1 = Upgraded.
Proof.
  intros Hp Ha Hu Hv. unfold fetch. rewrite Hp. cbn [bool_decide andb].
  rewrite !bool_decide_eq_false_2 by done. cbn [andb].
  rewrite bool_decide_eq_true_2 by done.
  destruct (validateAndUseToken _ _ _ _) as [valid tokens]. cbn [fst] in Hv. subst valid.
  cbn [negb withTokens activeConnection]. rewrite Ha.
  rewrite bool_decide_eq_false_2 by (intros [? ?]; done). by rewrite Hu.
Qed.

(** ** Transport close *)

(** C10.  [close] clears the active connection exactly when the closing
    socket is the registered one; otherwise the broker is untouched.  In
    particular, after a socket has been replaced by a newer one, its close
    event leaves the newer one registered. *)
Theorem close_clears_only_active (ws : Socket) (b : Broker) :
  (activeConnection b = Some ws → activeConnection (close ws b) = None) ∧
  (activeConnection b ≠ Some ws → close ws b = b) ∧
  (∀ host initialOptions newer,
     newer ≠ ws →
     activeConnection
       (close ws (open host initialOptions newer (open host initialOptions ws b)))
     = Some newer).
Proof.
  split; [|split].
  - intros H. unfold close. by rewrite bool_decide_eq_true_2.
  - intros H. unfold close. by rewrite bool_decide_eq_false_2.
  - intros host initialOptions newer Hne.
    assert (∀ s b', activeConnection (open host initialOptions s b') = Some s) as Hopen.
    { intros s b'. unfold open, processMessages, send. cbn.
      destruct (activeStream b'); [done|].
      destruct (resolveOptions _ _ _); done. }
    unfold close at 1. rewrite bool_decide_eq_false_2; [apply Hopen|].
    rewrite Hopen. congruence.
Qed.

Lemma close_clears_only_active_witness :
  let host := mkServerHost (λ _, VFun 2) "/home/agent-workspace" ∅ in
  activeConnection (close 1 (open host ∅ 1 initialBroker)) = None ∧
  close 2 (open host ∅ 1 initialBroker) = open host ∅ 1 initialBroker ∧
  activeConnection (close 1 (open host ∅ 2 (open host ∅ 1 initialBroker))) = Some 2.
Proof.
  intros host. split; [|split].
  - apply (proj1 (close_clears_only_active 1 (open host ∅ 1 initialBroker))).
    vm_compute. reflexivity.
  - apply (proj1 (proj2 (close_clears_only_active 2 (open host ∅ 1 initialBroker)))).
    vm_compute. discriminate.
  - apply (proj2 (proj2 (close_clears_only_active 1 initialBroker)) host ∅ 2). discriminate.
Defined.

(** ** Input queue *)

Lemma innerLoop_truthy message rest :
  truthy message = true → innerLoop (message :: rest) = (Some message, rest).
Proof. intros H. cbn [innerLoop]. by rewrite H. Qed.

Lemma yieldedOf_snoc outputs o :
  yieldedOf (outputs ++ [o])
  = yieldedOf outputs ++ match o with Yielded m => [m] | Waiting _ => [] end.
Proof. unfold yieldedOf. rewrite omap_app. by destruct o. Qed.

(** Resuming the generator hands over the head of the queue, or waits when
    the queue is empty; nothing else moves. *)
Lemma resume_accounts (d : Drain) :
  Forall (λ m, truthy m = true) (queue d) →
  yieldedOf (emitted (resume d)) ++ queue (resume d) = yieldedOf (emitted d) ++ queue d
  ∧ Forall (λ m, truthy m = true) (queue (resume d)).
Proof.
  intros Hq. unfold resume. destruct (queue d) as [|m rest] eqn:E.
  - cbn. rewrite yieldedOf_snoc. by rewrite !app_nil_r.
  - apply Forall_cons in Hq as [Hm Hrest]. rewrite (innerLoop_truthy m rest Hm).
    cbn [emitted queue]. rewrite yieldedOf_snoc, <- app_assoc. done.
Qed.

Lemma drainStep_accounts (d : Drain) (e : DrainEvent) :
  Forall (λ m, truthy m = true) (queue d) →
  Forall (λ m, truthy m = true) (pushedOf [e]) →
  yieldedOf (emitted (drainStep d e)) ++ queue (drainStep d e)
  = yieldedOf (emitted d) ++ queue d ++ pushedOf [e]
  ∧ Forall (λ m, truthy m = true) (queue (drainStep d e)).
Proof.
  intros Hq He. destruct e as [m| |]; cbn [pushedOf omap].
  - cbn [drainStep queue emitted]. split; [done|].
    apply Forall_app. split; [done|]. exact He.
  - rewrite app_nil_r. unfold drainStep.
    destruct (pc d); try (by split); by apply resume_accounts.
  - rewrite app_nil_r. unfold drainStep.
    destruct (pc d); try (by split); by apply resume_accounts.
Qed.

Lemma drainRun_accounts (events : list DrainEvent) (d : Drain) :
  Forall (λ m, truthy m = true) (queue d) →
  Forall (λ m, truthy m = true) (pushedOf events) →
  yieldedOf (emitted (drainRun events d)) ++ queue (drainRun events d)
  = yieldedOf (emitted d) ++ queue d ++ pushedOf events
  ∧ Forall (λ m, truthy m = true) (queue (drainRun events d)).
Proof.
  revert d. induction events as [|e events IH]; intros d Hq Hp.
  - cbn. by rewrite app_nil_r.
  - change (e :: events) with ([e] ++ events) in Hp.
    unfold pushedOf in Hp. rewrite omap_app in Hp. apply Forall_app in Hp as [He Hp].
    destruct (drainStep_accounts d e Hq He) as [H1 H2].
    destruct (IH (drainStep d e) H2 Hp) as [H3 H4].
    change (drainRun (e :: events) d) with (drainRun events (drainStep d e)).
    split; [|done].
    rewrite H3, app_assoc, H1, <- !app_assoc. f_equal. f_equal.
    change (e :: events) with ([e] ++ events). unfold pushedOf. by rewrite omap_app.
Qed.

Lemma drainStep_wake (d : Drain) : drainStep d (wake d) = resume d.
Proof. unfold drainStep, wake. by destruct (pc d). Qed.

(** As many resumptions as there are queued messages empty the queue. *)
Lemma pump_delivers (n : nat) (d : Drain) :
  Forall (λ m, truthy m = true) (queue d) → n = length (queue d) →
  yieldedOf (emitted (pump n d)) = yieldedOf (emitted d) ++ queue d
  ∧ queue (pump n d) = [].
Proof.
  revert d. induction n as [|n IH]; intros d Hq Hn.
  - destruct (queue d) eqn:E; [|done]. cbn. by rewrite app_nil_r.
  - cbn [pump]. rewrite drainStep_wake.
    destruct (queue d) as [|m rest] eqn:E; [done|].
    apply Forall_cons in Hq as [Hm Hrest].
    assert (resume d = mkDrain rest AtYield (emitted d ++ [Yielded m])) as ->.
    { unfold resume. by rewrite E, (innerLoop_truthy m rest Hm). }
    destruct (IH (mkDrain rest AtYield (emitted d ++ [Yielded m]))) as [H1 H2];
      [done | cbn in *; lia |].
    split; [|done]. rewrite H1. cbn [emitted queue].
    by rewrite yieldedOf_snoc, <- app_assoc.
Qed.

Lemma resume_waits (d : Drain) :
  Forall (λ o, ∀ ms, o = Waiting ms → ms = 10%Z) (emitted d) →
  Forall (λ o, ∀ ms, o = Waiting ms → ms = 10%Z) (emitted (resume d)).
Proof.
  intros H. unfold resume. destruct (innerLoop (queue d)) as [[m|] rest]; cbn [emitted];
    apply Forall_app; (split; [done|]); apply Forall_singleton; intros ms [=]; done.
Qed.

Lemma drainRun_waits (events : list DrainEvent) (d : Drain) :
  Forall (λ o, ∀ ms, o = Waiting ms → ms = 10%Z) (emitted d) →
  Forall (λ o, ∀ ms, o = Waiting ms → ms = 10%Z) (emitted (drainRun events d)).
Proof.
  revert d. induction events as [|e events IH]; intros d H; [done|].
  change (drainRun (e :: events) d) with (drainRun events (drainStep d e)). apply IH.
  unfold drainStep. destruct e, (pc d); try done; by apply resume_waits.
Qed.

(** C8.  Let messages (objects, hence truthy) be pushed at any moments
    between the resumptions of the generator, however many between two
    resumptions.  At every moment the messages yielded so far followed by
    the messages still queued are exactly the messages pushed, in the order
    of the pushes: what was yielded is a prefix of what was submitted, with
    nothing reordered, merged or dropped.  Resuming the generator once per
    queued message then yields all of them, and every wait of the generator
    is the fixed 10 ms. *)
Theorem fifo_drain (events : list DrainEvent) :
  Forall (λ m, truthy m = true) (pushedOf events) →
  let d := drainRun events initialDrain in
  yieldedOf (emitted d) ++ queue d = pushedOf events ∧
  (let d' := pump (length (queue d)) d in
   yieldedOf (emitted d') = pushedOf events ∧ queue d' = []) ∧
  Forall (λ o, ∀ ms, o = Waiting ms → ms = 10%Z) (emitted d).
Proof.
  intros Hp d.
  destruct (drainRun_accounts events initialDrain) as [H1 H2]; [done|done|].
  fold d in H1, H2. cbn [initialDrain emitted queue yieldedOf omap app] in H1.
  split; [done|]. split.
  - destruct (pump_delivers (length (queue d)) d H2 eq_refl) as [H3 H4].
    cbn zeta. by rewrite H3, H1.
  - by apply drainRun_waits.
Qed.

Lemma fifo_drain_witness :
  let m1 := VObj {[ "type" := VStr "user" ]} in
  let m2 := VObj {[ "type" := VStr "user"; "session_id" := VStr "s" ]} in
  let m3 := VObj ∅ in
  let events := [Next; Push m1; Push m2; Push m3; TimerFired; Next] in
  let d := drainRun events initialDrain in
  yieldedOf (emitted d) ++ queue d = [m1; m2; m3] ∧
  yieldedOf (emitted (pump (length (queue d)) d)) = [m1; m2; m3].
Proof.
  intros m1 m2 m3 events d.
  assert (Forall (λ m, truthy m = true) (pushedOf events)) as Hobjects.
  { repeat constructor. }
  destruct (fifo_drain events Hobjects) as (H1 & [H2 _] & _).
  split; [exact H1 | exact H2].
Defined.

(** A falsy element, which the type of the queue excludes, would be
    skipped by the test [if (message)]. *)
Lemma innerLoop_skips_falsy message rest :
  truthy message = false → innerLoop (message :: rest) = innerLoop rest.
Proof. intros H. cbn [innerLoop]. by rewrite H. Qed.

(** ** Runtime options *)

Lemma resolveOptions_object host initialOptions fields :
  is_Some (resolveOptions host initialOptions (VObj fields)).
Proof. unfold resolveOptions. cbn. eauto. Qed.

Lemma envOverride_lookup host apiKey field :
  envOverride host apiKey !! field =
  let key := jsOr apiKey (ofOptStr (processEnv host !! "ANTHROPIC_API_KEY")) in
  if truthy key && bool_decide (field = "env")
  then Some (VObj (<["PATH" := ofOptStr (processEnv host !! "PATH")]>
                  (<["ANTHROPIC_API_KEY" := key]> ∅)))
  else None.
Proof.
  unfold envOverride. cbn zeta.
  destruct (truthy (jsOr apiKey _)); cbn [andb]; [|apply lookup_empty].
  case_bool_decide as H.
  - subst field. apply lookup_singleton_eq.
  - by apply lookup_singleton_ne.
Qed.

Lemma specThreeTier_union host initialOptions queryConfig field :
  specThreeTier host initialOptions queryConfig field
  = (spread queryConfig ∪ (initialOptions ∪ defaultOptions host)) !! field.
Proof.
  unfold specThreeTier. rewrite !lookup_union.
  destruct (spread queryConfig !! field), (initialOptions !! field),
    (defaultOptions host !! field); done.
Qed.

(** The stream is created with the options resolved this way. *)
Lemma open_resolves host initialOptions ws (b : Broker) :
  activeStream b = None →
  activeStream (open host initialOptions ws b)
  = resolveOptions host initialOptions (queryConfig b).
Proof.
  intros H. unfold open, processMessages, send. cbn. rewrite H.
  destruct (resolveOptions host initialOptions (queryConfig b)); done.
Qed.

(** C7, as amended.  For every field other than [env] and [mcpServers] the
    effective option is the negotiated one if supplied, else the startup
    one if supplied, else the default.  [mcpServers] is the negotiated one
    if supplied, else the startup one extended with the injected SDK server.
    [env] is replaced by a PATH/ANTHROPIC_API_KEY pair whenever an API key is
    available from the negotiated configuration or the process environment,
    and follows the three tiers otherwise. *)
Theorem options_three_tier_except_env host (initialOptions : gmap string Value)
    (queryConfig : Value) (options : gmap string Value) :
  resolveOptions host initialOptions queryConfig = Some options →
  (∀ field, field ≠ "env" → field ≠ "mcpServers" →
     options !! field = specThreeTier host initialOptions queryConfig field) ∧
  options !! "mcpServers"
  = Some (default (injectedMcpServers host initialOptions) (spread queryConfig !! "mcpServers")) ∧
  (∃ apiKey, getProp queryConfig "anthropicApiKey" = Some apiKey ∧
     let key := jsOr apiKey (ofOptStr (processEnv host !! "ANTHROPIC_API_KEY")) in
     options !! "env" =
     if truthy key
     then Some (VObj (<["PATH" := ofOptStr (processEnv host !! "PATH")]>
                     (<["ANTHROPIC_API_KEY" := key]> ∅)))
     else specThreeTier host initialOptions queryConfig "env").
Proof.
  unfold resolveOptions. intros H.
  destruct (getProp queryConfig "anthropicApiKey") as [apiKey|] eqn:E; [|done].
  cbn in H. injection H as <-. split; [|split].
  - intros field He Hm. rewrite specThreeTier_union.
    rewrite lookup_union_r.
    2:{ rewrite envOverride_lookup. cbn zeta.
        rewrite (bool_decide_eq_false_2 _ He). by rewrite andb_false_r. }
    rewrite !(lookup_union (spread queryConfig)). f_equal.
    by rewrite lookup_insert_ne.
  - rewrite lookup_union_r.
    2:{ rewrite envOverride_lookup. cbn zeta. by rewrite andb_false_r. }
    rewrite lookup_union, lookup_insert_eq.
    by destruct (spread queryConfig !! "mcpServers").
  - exists apiKey. split; [done|]. cbn zeta.
    pose proof (envOverride_lookup host apiKey "env") as Hl. cbn zeta in Hl.
    destruct (truthy (jsOr apiKey _)) eqn:Hk; cbn [andb bool_decide] in Hl.
    + rewrite bool_decide_eq_true_2 in Hl by done.
      by rewrite (lookup_union_Some_l _ _ _ _ Hl).
    + rewrite lookup_union_r by done. rewrite specThreeTier_union.
      rewrite !(lookup_union (spread queryConfig)). f_equal.
      by rewrite lookup_insert_ne.
Qed.

Lemma options_three_tier_except_env_witness :
  let host := mkServerHost (λ _, VFun 2) "/home/agent-workspace"
                {[ "ANTHROPIC_API_KEY" := "sk-env" ]} in
  let initialOptions : gmap string Value :=
    {[ "model" := VStr "startup-model"; "systemPrompt" := VStr "startup-prompt" ]} in
  let queryConfig := VObj {[ "model" := VStr "negotiated-model" ]} in
  ∃ options,
    resolveOptions host initialOptions queryConfig = Some options ∧
    options !! "model" = Some (VStr "negotiated-model") ∧
    options !! "systemPrompt" = Some (VStr "startup-prompt") ∧
    options !! "cwd" = Some (VStr "/home/agent-workspace").
Proof.
  intros host initialOptions queryConfig.
  destruct (resolveOptions_object host initialOptions {[ "model" := VStr "negotiated-model" ]})
    as [options Hres].
  exists options. split; [exact Hres|].
  destruct (options_three_tier_except_env host initialOptions queryConfig options Hres)
    as (Hfields & _ & _).
  split; [|split].
  - rewrite (Hfields "model") by discriminate. vm_compute. reflexivity.
  - rewrite (Hfields "systemPrompt") by discriminate. vm_compute. reflexivity.
  - rewrite (Hfields "cwd") by discriminate. vm_compute. reflexivity.
Defined.

(** C7, as stated, fails on [env]: a startup [env], with nothing negotiated
    for it, is not what the stream receives once an API key is known. *)
Lemma options_three_tier_counterexample :
  ¬ (∀ host (initialOptions : gmap string Value) queryConfig (options : gmap string Value) field,
       resolveOptions host initialOptions queryConfig = Some options →
       options !! field = specThreeTier host initialOptions queryConfig field).
Proof.
  intros H.
  pose (host := mkServerHost (λ _, VFun 2) "/home/agent-workspace"
                  {[ "ANTHROPIC_API_KEY" := "sk-env" ]}).
  pose (initialOptions := ({[ "env" := VObj {[ "FOO" := VStr "1" ]} ]} : gmap string Value)).
  destruct (resolveOptions host initialOptions (VObj ∅)) as [options|] eqn:Hres;
    [|vm_compute in Hres; discriminate Hres].
  specialize (H host initialOptions (VObj ∅) options "env" Hres).
  vm_compute in Hres. injection Hres as <-.
  apply (f_equal (λ o, match o with
                       | Some (VObj fields) => bool_decide (is_Some (fields !! "FOO"))
                       | _ => false
                       end)) in H.
  vm_compute in H. discriminate H.
Qed.

(** * Further properties of the broker *)

(** ** Token store *)

Lemma validate_accepts_fresh (nowSweep nowCheck : Z) (t : string)
    (tokens : gmap string ConnectionToken) (token : ConnectionToken) :
  nonEmpty t = true → tokens !! t = Some token → used token = false →
  (nowSweep - createdAt token ≤ CONNECTION_TOKEN_TTL_MS)%Z →
  (nowCheck - createdAt token ≤ CONNECTION_TOKEN_TTL_MS)%Z →
  (validateAndUseToken nowSweep nowCheck (Some t) tokens).1 = true.
Proof.
  intros Hne Ht Hu Hs Hc. unfold validateAndUseToken. cbn zeta. rewrite Hne. cbn [negb].
  assert (isExpired nowSweep token = false) as Hs' by (by apply Z.ltb_ge).
  assert (isExpired nowCheck token = false) as Hc' by (by apply Z.ltb_ge).
  assert (cleanupTokens nowSweep tokens !! t = Some token) as ->.
  { apply cleanup_lookup_Some. split; [done|]. unfold swept. by rewrite Hu, Hs'. }
  by rewrite Hu, Hc'.
Qed.

(** X1.  A presented token is accepted exactly when it is a non-empty
    string, is in the store, is not marked used, and its age exceeds the TTL
    at neither of the two clock readings of the call; an age equal to the
    TTL is still accepted. *)
Theorem validate_accepts_iff (nowSweep nowCheck : Z) (t : string)
    (tokens : gmap string ConnectionToken) :
  (validateAndUseToken nowSweep nowCheck (Some t) tokens).1 = true ↔
  nonEmpty t = true ∧
  ∃ token, tokens !! t = Some token ∧ used token = false
           ∧ (nowSweep - createdAt token ≤ CONNECTION_TOKEN_TTL_MS)%Z
           ∧ (nowCheck - createdAt token ≤ CONNECTION_TOKEN_TTL_MS)%Z.
Proof.
  split.
  - unfold validateAndUseToken. cbn zeta.
    destruct (nonEmpty t); [|done]. cbn [negb]. intros H. split; [done|].
    destruct (cleanupTokens nowSweep tokens !! t) as [token|] eqn:E; [|done].
    apply cleanup_lookup_Some in E as [E1 E2].
    destruct (used token || isExpired nowCheck token) eqn:E3; [done|].
    unfold swept in E2. apply orb_false_iff in E2 as [Hu He], E3 as [_ He'].
    unfold isExpired in *. apply Z.ltb_ge in He, He'. by exists token.
  - intros [Hne (token & Ht & Hu & Hs & Hc)].
    by apply (validate_accepts_fresh nowSweep nowCheck t tokens token).
Qed.

(** X2.  [validateAndUseToken] never adds a token and never alters one it
    was not presented with: every entry of the store after the call was in
    the store before, unchanged, except the presented token, which is the
    old one marked used. *)
Theorem validate_never_grows (nowSweep nowCheck : Z) (presented : option string)
    (tokens : gmap string ConnectionToken) (k : string) (token' : ConnectionToken) :
  (validateAndUseToken nowSweep nowCheck presented tokens).2 !! k = Some token' →
  ∃ token, tokens !! k = Some token ∧
    (token' = token
     ∨ (presented = Some k ∧ used token = false
        ∧ token' = mkToken (value token) (createdAt token) true)).
Proof.
  intros H.
  destruct (validate_store nowSweep nowCheck presented tokens k)
    as [E | [[_ E] | [Hp (token & E & _ & E')]]]; rewrite H in *.
  - symmetry in E. apply cleanup_lookup_Some in E as [E1 _]. exists token'. by split; [|left].
  - done.
  - apply cleanup_lookup_Some in E as [E1 E2]. exists token. split; [done|]. right.
    unfold swept in E2. apply orb_false_iff in E2 as [Hu _].
    split; [done|]. split; [done|]. by injection E' as ->.
Qed.

Lemma validate_never_grows_witness :
  let tokens := (generateConnectionToken "ab12" 0 ∅).2 in
  ∃ token, tokens !! "ab12" = Some token ∧
    (mkToken "ab12" 0 true = token
     ∨ (Some "ab12" = Some "ab12" ∧ used token = false
        ∧ mkToken "ab12" 0 true = mkToken (value token) (createdAt token) true)).
Proof.
  intros tokens.
  apply (validate_never_grows 1000 1000 (Some "ab12") tokens "ab12" (mkToken "ab12" 0 true)).
  vm_compute. reflexivity.
Defined.

(** X20.  After any call of [validateAndUseToken] the store holds only
    tokens that are unused and were no older than the TTL at the sweep,
    except the token the call has just accepted, which is marked used: the
    store never keeps a token for more than one validation past its expiry
    or its use. *)
Theorem validate_leaves_fresh (nowSweep nowCheck : Z) (presented : option string)
    (tokens : gmap string ConnectionToken) (k : string) (token : ConnectionToken) :
  (validateAndUseToken nowSweep nowCheck presented tokens).2 !! k = Some token →
  (used token = false ∧ (nowSweep - createdAt token ≤ CONNECTION_TOKEN_TTL_MS)%Z)
  ∨ (presented = Some k ∧ used token = true
     ∧ (validateAndUseToken nowSweep nowCheck presented tokens).1 = true).
Proof.
  intros H.
  destruct (validate_store nowSweep nowCheck presented tokens k)
    as [E | [[_ E] | [Hp (token0 & E & Hacc & E')]]]; rewrite H in *.
  - left. symmetry in E. apply cleanup_lookup_Some in E as [_ E2].
    unfold swept in E2. apply orb_false_iff in E2 as [Hu He].
    split; [done|]. unfold isExpired in He. by apply Z.ltb_ge in He.
  - done.
  - right. split; [done|]. split; [|done]. by injection E' as ->.
Qed.

Lemma validate_leaves_fresh_witness :
  let tokens := (generateConnectionToken "ab12" 0 ∅).2 in
  (used (mkToken "ab12" 0 true) = false
   ∧ (1000 - createdAt (mkToken "ab12" 0 true) ≤ CONNECTION_TOKEN_TTL_MS)%Z)
  ∨ (Some "ab12" = Some "ab12" ∧ used (mkToken "ab12" 0 true) = true
     ∧ (validateAndUseToken 1000 1000 (Some "ab12") tokens).1 = true).
Proof.
  intros tokens.
  apply (validate_leaves_fresh 1000 1000 (Some "ab12") tokens "ab12" (mkToken "ab12" 0 true)).
  vm_compute. reflexivity.
Defined.

(** ** Endpoints *)

(** X3.  A POST to /config with a body that parses answers 200 with the
    configuration and the token, replaces the stored configuration
    whatever it was, and leaves every other token of the store as it is; a
    GET right after returns that configuration and changes nothing. *)
Theorem config_post_then_get (env env' : FetchEnv) (req req' : Request) (b : Broker)
    (config : Value) :
  pathname req = "/config" → method req = "POST" → jsonBody req = Some config →
  pathname req' = "/config" → method req' = "GET" →
  let b1 := (fetch env req b).2 in
  (fetch env req b).1
  = JsonResponse 200
      (VObj (<["success" := VBool true]>
            (<["config" := config]>
            (<["connectionToken" := VStr (randomHex env)]> ∅)))) ∧
  queryConfig b1 = config ∧
  (∀ k, k ≠ randomHex env → connectionTokens b1 !! k = connectionTokens b !! k) ∧
  fetch env' req' b1 = (JsonResponse 200 (VObj {[ "config" := config ]}), b1).
Proof.
  intros Hp Hm Hj Hp' Hm' b1. subst b1.
  assert (fetch env req b
          = (JsonResponse 200
               (VObj (<["success" := VBool true]>
                     (<["config" := config]>
                     (<["connectionToken" := VStr (randomHex env)]> ∅)))),
             mkBroker (activeConnection b) (messageQueue b) (activeStream b) config
                      (<[randomHex env := mkToken (randomHex env) (nowIssue env) false]>
                         (connectionTokens b))
                      (outbox b))) as ->.
  { unfold fetch. rewrite Hp, Hm, Hj. reflexivity. }
  cbn [fst snd queryConfig connectionTokens].
  split; [done|]. split; [done|]. split.
  - intros k Hk. by rewrite lookup_insert_ne.
  - unfold fetch. rewrite Hp', Hm'. reflexivity.
Qed.

Lemma config_post_then_get_witness :
  let env := mkFetchEnv "00ff" 10 10 10 true in
  let config := VObj {[ "model" := VStr "m" ]} in
  let b1 := (fetch env (mkRequest "/config" "POST" None (Some config)) initialBroker).2 in
  fetch env (mkRequest "/config" "GET" None None) b1
  = (JsonResponse 200 (VObj {[ "config" := config ]}), b1).
Proof.
  intros env config b1.
  exact (proj2 (proj2 (proj2
    (config_post_then_get env env (mkRequest "/config" "POST" None (Some config))
       (mkRequest "/config" "GET" None None) initialBroker config
       eq_refl eq_refl eq_refl eq_refl eq_refl)))).
Defined.

Lemma fetch_keeps (env : FetchEnv) (req : Request) (b : Broker) :
  activeConnection (fetch env req b).2 = activeConnection b ∧
  activeStream (fetch env req b).2 = activeStream b ∧
  messageQueue (fetch env req b).2 = messageQueue b ∧
  outbox (fetch env req b).2 = outbox b.
Proof.
  unfold fetch.
  repeat match goal with
         | |- context [if ?c then _ else _] => destruct c
         | |- context [match jsonBody req with _ => _ end] => destruct (jsonBody req)
         | |- context [validateAndUseToken ?a ?b ?c ?d] =>
             destruct (validateAndUseToken a b c d) as [[] ?]
         end; done.
Qed.

(** X4.  The [fetch] handler never touches the active connection, the
    runtime stream, the input queue or what was sent; and a request that is
    neither on /ws nor a POST on /config leaves the whole broker as it is,
    answered 200 if it is a GET on /config and 404 otherwise. *)
Theorem fetch_frame (env : FetchEnv) (req : Request) (b : Broker) :
  activeConnection (fetch env req b).2 = activeConnection b ∧
  activeStream (fetch env req b).2 = activeStream b ∧
  messageQueue (fetch env req b).2 = messageQueue b ∧
  outbox (fetch env req b).2 = outbox b ∧
  (pathname req ≠ "/ws" → ¬ (pathname req = "/config" ∧ method req = "POST") →
   (fetch env req b).2 = b ∧
   statusOf (fetch env req b).1
   = Some (if bool_decide (pathname req = "/config" ∧ method req = "GET") then 200 else 404)%Z).
Proof.
  unfold fetch.
  destruct (bool_decide (pathname req = "/config")) eqn:Ep;
    destruct (bool_decide (method req = "POST")) eqn:Em;
    destruct (bool_decide (method req = "GET")) eqn:Eg;
    destruct (bool_decide (pathname req = "/ws")) eqn:Ew;
    cbn [andb];
    try apply bool_decide_eq_true in Ep; try apply bool_decide_eq_false in Ep;
    try apply bool_decide_eq_true in Em; try apply bool_decide_eq_false in Em;
    try apply bool_decide_eq_true in Eg; try apply bool_decide_eq_false in Eg;
    try apply bool_decide_eq_true in Ew; try apply bool_decide_eq_false in Ew;
    try destruct (jsonBody req) as [config|];
    try destruct (validateAndUseToken _ _ _ _) as [[] tokens];
    cbn [negb withTokens withConfig generateConnectionToken fst snd
         activeConnection activeStream messageQueue outbox];
    try destruct (bool_decide (is_Some (activeConnection b)));
    try destruct (upgradeOk env);
    cbn [fst snd activeConnection activeStream messageQueue outbox statusOf];
    (repeat split; try done);
    try (intros; exfalso; tauto);
    try (intros; rewrite bool_decide_eq_true_2 by done; done);
    try (intros; rewrite bool_decide_eq_false_2 by tauto; done).
Qed.

Lemma fetch_frame_witness :
  let env := mkFetchEnv "00ff" 10 10 10 true in
  let b := mkBroker (Some 1) [] None (VObj ∅) (generateConnectionToken "c0de" 0 ∅).2 [] in
  (fetch env (mkRequest "/health" "GET" None None) b).2 = b ∧
  statusOf (fetch env (mkRequest "/health" "GET" None None) b).1 = Some 404%Z.
Proof.
  intros env b.
  apply (proj2 (proj2 (proj2 (proj2 (fetch_frame env (mkRequest "/health" "GET" None None) b))))).
  - discriminate.
  - intros [H _]. discriminate H.
Defined.

(** ** The handshake, end to end *)

Lemma open_fields host initialOptions (ws : Socket) (b : Broker) :
  activeConnection (open host initialOptions ws b) = Some ws ∧
  connectionTokens (open host initialOptions ws b) = connectionTokens b ∧
  queryConfig (open host initialOptions ws b) = queryConfig b ∧
  messageQueue (open host initialOptions ws b) = messageQueue b.
Proof.
  unfold open, processMessages, send. cbn.
  destruct (activeStream b); [done|].
  destruct (resolveOptions _ _ _); done.
Qed.

(** X5.  On an idle broker, a configuration followed within the TTL by an
    upgrade request carrying the token just issued is upgraded; once the
    socket is open it is the active connection, the stream runs with the
    options resolved from that configuration, and the same token presented
    again is answered 401. *)
Theorem broker_handshake host (initialOptions : gmap string Value)
    (envConfig envUpgrade : FetchEnv) (reqConfig reqUpgrade : Request)
    (ws : Socket) (b : Broker) (config : Value) :
  pathname reqConfig = "/config" → method reqConfig = "POST" →
  jsonBody reqConfig = Some config →
  pathname reqUpgrade = "/ws" → tokenParam reqUpgrade = Some (randomHex envConfig) →
  nonEmpty (randomHex envConfig) = true →
  (nowSweep envUpgrade - nowIssue envConfig ≤ CONNECTION_TOKEN_TTL_MS)%Z →
  (nowCheck envUpgrade - nowIssue envConfig ≤ CONNECTION_TOKEN_TTL_MS)%Z →
  upgradeOk envUpgrade = true →
  activeConnection b = None → activeStream b = None →
  let b1 := (fetch envConfig reqConfig b).2 in
  let b2 := open host initialOptions ws (fetch envUpgrade reqUpgrade b1).2 in
  (fetch envUpgrade reqUpgrade b1).1 = Upgraded ∧
  activeConnection b2 = Some ws ∧
  activeStream b2 = resolveOptions host initialOptions config ∧
  ∀ envReplay, statusOf (fetch envReplay reqUpgrade b2).1 = Some 401%Z.
Proof.
  intros Hp Hm Hj Hw Htok Hne Hsweep Hcheck Hup Hidle Hstream b1 b2.
  destruct (config_valid_json envConfig reqConfig b config Hp Hm Hj) as (_ & Hcfg & Hissued).
  destruct (fetch_keeps envConfig reqConfig b) as (Hconn1 & Hstream1 & _).
  fold b1 in Hcfg, Hissued, Hconn1, Hstream1.
  assert ((validateAndUseToken (nowSweep envUpgrade) (nowCheck envUpgrade)
             (tokenParam reqUpgrade) (connectionTokens b1)).1 = true) as Hvalid.
  { rewrite Htok.
    by apply (validate_accepts_fresh _ _ _ _ _ Hne Hissued). }
  assert ((fetch envUpgrade reqUpgrade b1).1 = Upgraded) as Hupgraded.
  { apply upgrade_when_idle; [done| |done|done]. by rewrite Hconn1. }
  split; [done|].
  destruct (fetch_keeps envUpgrade reqUpgrade b1) as (_ & Hstream2 & _).
  destruct (open_fields host initialOptions ws (fetch envUpgrade reqUpgrade b1).2)
    as (Hconn & Htokens & Hconfig & _).
  fold b2 in Hconn, Htokens, Hconfig.
  split; [done|]. split.
  - subst b2. rewrite open_resolves by (by rewrite Hstream2, Hstream1).
    f_equal. unfold fetch. rewrite Hw. cbn [bool_decide andb].
    rewrite !bool_decide_eq_false_2 by done. cbn [andb].
    rewrite bool_decide_eq_true_2 by done.
    destruct (validateAndUseToken _ _ _ _) as [valid tokens]. cbn [fst] in Hvalid. subst valid.
    cbn [negb withTokens activeConnection]. rewrite Hconn1, Hidle.
    rewrite bool_decide_eq_false_2 by (intros [? ?]; done). by rewrite Hup.
  - intros envReplay.
    rewrite (fetch_ws_active envReplay reqUpgrade b2 Hw) by (rewrite Hconn; eauto).
    assert (spent (randomHex envConfig) (connectionTokens b2)) as Hspent.
    { rewrite Htokens. unfold fetch. rewrite Hw. cbn [bool_decide andb].
      rewrite !bool_decide_eq_false_2 by done. cbn [andb].
      rewrite bool_decide_eq_true_2 by done.
      pose proof (validate_accept_spends (nowSweep envUpgrade) (nowCheck envUpgrade)
                    (randomHex envConfig) (connectionTokens b1)) as Hs.
      rewrite Htok in *.
      destruct (validateAndUseToken _ _ _ _) as [valid tokens]. cbn [fst snd] in *.
      subst valid. specialize (Hs eq_refl). cbn [negb withTokens activeConnection].
      destruct (bool_decide _); [done|]. by destruct (upgradeOk envUpgrade). }
    pose proof (validate_spent_rejects (nowSweep envReplay) (nowCheck envReplay)
                  (randomHex envConfig) (connectionTokens b2) Hspent) as Hrej.
    rewrite Htok.
    destruct (validateAndUseToken (nowSweep envReplay) _ _ _) as [valid' tokens'].
    cbn [fst] in Hrej. by subst valid'.
Qed.

Lemma broker_handshake_witness :
  let host := mkServerHost (λ _, VFun 2) "/home/agent-workspace" ∅ in
  let envConfig := mkFetchEnv "c0de" 0 0 0 true in
  let envUpgrade := mkFetchEnv "00ff" 0 300000 300000 true in
  let reqConfig := mkRequest "/config" "POST" None (Some (VObj ∅)) in
  let reqUpgrade := mkRequest "/ws" "GET" (Some "c0de") None in
  let b1 := (fetch envConfig reqConfig initialBroker).2 in
  let b2 := open host ∅ 7 (fetch envUpgrade reqUpgrade b1).2 in
  (fetch envUpgrade reqUpgrade b1).1 = Upgraded ∧
  activeConnection b2 = Some 7 ∧
  statusOf (fetch envUpgrade reqUpgrade b2).1 = Some 401%Z.
Proof.
  intros host envConfig envUpgrade reqConfig reqUpgrade b1 b2.
  destruct (broker_handshake host ∅ envConfig envUpgrade reqConfig reqUpgrade 7 initialBroker
              (VObj ∅) eq_refl eq_refl eq_refl eq_refl eq_refl eq_refl
              ltac:(vm_compute; discriminate) ltac:(vm_compute; discriminate)
              eq_refl eq_refl eq_refl) as (H1 & H2 & _ & H4).
  split; [exact H1|]. split; [exact H2|exact (H4 envUpgrade)].
Defined.

(** ** The runtime stream and its relays *)

Lemma brokerStep_keeps_stream host initialOptions (b : Broker) (e : BrokerEvent) options :
  activeStream b = Some options →
  activeStream (brokerStep host initialOptions b e) = Some options.
Proof.
  intros H. destruct e as [env req|ws|ws|data|data]; cbn [brokerStep].
  - by rewrite (proj1 (proj2 (fetch_keeps env req b))).
  - unfold open, send. cbn. by rewrite H.
  - unfold close. by destruct (bool_decide _).
  - unfold relayMessage, send. by destruct (activeConnection b).
  - unfold relayStderr, send. by destruct (activeConnection b).
Qed.

(** X6.  Once the runtime stream has been created it is never replaced or
    dropped: whatever requests, connections, disconnections and runtime
    output follow, the stream and the options it was created with stay; in
    particular a configuration posted later and a reconnection do not
    restart it. *)
Theorem stream_started_once host (initialOptions : gmap string Value)
    (events : list BrokerEvent) (b : Broker) (options : gmap string Value) :
  activeStream b = Some options →
  activeStream (brokerRun host initialOptions events b) = Some options.
Proof.
  revert b. induction events as [|e events IH]; intros b H; [done|].
  change (brokerRun host initialOptions (e :: events) b)
    with (brokerRun host initialOptions events (brokerStep host initialOptions b e)).
  by apply IH, brokerStep_keeps_stream.
Qed.

Lemma stream_started_once_witness :
  let host := mkServerHost (λ _, VFun 2) "/home/agent-workspace" ∅ in
  let b := open host ∅ 1 initialBroker in
  let later :=
    [OnClose 1;
     OnFetch (mkFetchEnv "c0de" 0 0 0 true)
             (mkRequest "/config" "POST" None (Some (VObj {[ "model" := VStr "other" ]})));
     OnOpen 2] in
  activeStream (brokerRun host ∅ later b) = activeStream b.
Proof.
  intros host b later.
  destruct (activeStream b) as [options|] eqn:E; [|vm_compute in E; discriminate E].
  exact (stream_started_once host ∅ later b options E).
Defined.

Lemma relayedOf_snoc (sent : list (Socket * WSOutputMessage)) ws m :
  relayedOf (sent ++ [(ws, m)])
  = relayedOf sent ++ match m with SdkMessage data => [(ws, data)] | _ => [] end.
Proof. unfold relayedOf. rewrite omap_app. by destruct m. Qed.

(** X7.  The messages of the runtime reach the socket in the order the
    runtime produced them: while a connection stays active, each one is
    sent to it, after what was sent before.  While no connection is active
    they are dropped: the broker keeps no trace of them. *)
Theorem relay_in_order (datas : list Value) (b : Broker) :
  (∀ ws, activeConnection b = Some ws →
     let b' := foldl (λ b data, relayMessage data b) b datas in
     outbox b' = outbox b ++ ((λ data, (ws, SdkMessage data)) <$> datas)
     ∧ activeConnection b' = Some ws) ∧
  (activeConnection b = None → foldl (λ b data, relayMessage data b) b datas = b).
Proof.
  split.
  - intros ws. revert b. induction datas as [|data datas IH]; intros b H.
    + cbn. by rewrite app_nil_r.
    + cbn [foldl fmap list_fmap].
      assert (relayMessage data b = send ws (SdkMessage data) b) as ->
        by (unfold relayMessage; by rewrite H).
      destruct (IH (send ws (SdkMessage data) b) H) as [IH1 IH2].
      cbn zeta in *. rewrite IH1, IH2. cbn [send outbox].
      by rewrite <- app_assoc.
  - intros H. induction datas as [|data datas IH]; [done|].
    cbn [foldl]. unfold relayMessage at 2. by rewrite H.
Qed.

Lemma relay_in_order_witness :
  let host := mkServerHost (λ _, VFun 2) "/home/agent-workspace" ∅ in
  let b := open host ∅ 1 initialBroker in
  outbox (foldl (λ b data, relayMessage data b) b [VNum 1; VNum 2])
  = outbox b ++ [(1, SdkMessage (VNum 1)); (1, SdkMessage (VNum 2))]
  ∧ foldl (λ b data, relayMessage data b) (close 1 b) [VNum 1; VNum 2] = close 1 b.
Proof.
  intros host b. split.
  - exact (proj1 (proj1 (relay_in_order [VNum 1; VNum 2] b) 1 eq_refl)).
  - exact (proj2 (relay_in_order [VNum 1; VNum 2] (close 1 b)) eq_refl).
Defined.

(** X8.  A configuration whose JSON is [null] is accepted by POST /config
    with status 200 and a token; but the options cannot be resolved from
    it, so the next connection does not start the runtime stream: the
    socket is sent an error, then [connected], and the stream is still to be
    started by a later connection. *)
Theorem null_config_blocks_stream host (initialOptions : gmap string Value)
    (env : FetchEnv) (req : Request) (ws : Socket) (b : Broker) :
  pathname req = "/config" → method req = "POST" → jsonBody req = Some VNull →
  activeStream b = None →
  let b1 := (fetch env req b).2 in
  statusOf (fetch env req b).1 = Some 200%Z ∧
  activeStream (open host initialOptions ws b1) = None ∧
  ∃ error,
    outbox (open host initialOptions ws b1)
    = outbox b ++ [(ws, ErrorOutput error); (ws, Connected)].
Proof.
  intros Hp Hm Hj Hs b1.
  destruct (config_valid_json env req b VNull Hp Hm Hj) as (Hstatus & Hcfg & _).
  destruct (fetch_keeps env req b) as (_ & Hstream & _ & Hout).
  fold b1 in Hcfg, Hstream, Hout. split; [done|].
  unfold open, processMessages, send. cbn. rewrite Hstream, Hs, Hcfg, Hout. cbn.
  split; [done|]. eexists. by rewrite <- app_assoc.
Qed.

Lemma null_config_blocks_stream_witness :
  let host := mkServerHost (λ _, VFun 2) "/home/agent-workspace" ∅ in
  let b1 := (fetch (mkFetchEnv "c0de" 0 0 0 true)
                   (mkRequest "/config" "POST" None (Some VNull)) initialBroker).2 in
  activeStream (open host ∅ 1 b1) = None.
Proof.
  intros host b1.
  exact (proj1 (proj2 (null_config_blocks_stream host ∅ (mkFetchEnv "c0de" 0 0 0 true)
                         (mkRequest "/config" "POST" None (Some VNull)) 1 initialBroker
                         eq_refl eq_refl eq_refl eq_refl))).
Defined.

(** ** The drain generator on arbitrary values *)

Lemma innerLoop_filter (queue : list Value) :
  match innerLoop queue with
  | (Some message, rest) =>
      filter (λ m, truthy m = true) queue = message :: filter (λ m, truthy m = true) rest
  | (None, rest) => filter (λ m, truthy m = true) queue = [] ∧ rest = []
  end.
Proof.
  induction queue as [|m queue IH]; [done|]. cbn [innerLoop].
  destruct (truthy m) eqn:E.
  - by rewrite filter_cons_True.
  - rewrite filter_cons_False by (by rewrite E). exact IH.
Qed.

Lemma resume_accounts_any (d : Drain) :
  yieldedOf (emitted (resume d)) ++ filter (λ m, truthy m = true) (queue (resume d))
  = yieldedOf (emitted d) ++ filter (λ m, truthy m = true) (queue d).
Proof.
  unfold resume. pose proof (innerLoop_filter (queue d)) as H.
  destruct (innerLoop (queue d)) as [[message|] rest]; cbn [emitted queue].
  - rewrite yieldedOf_snoc, H, <- app_assoc. done.
  - destruct H as [-> ->]. rewrite yieldedOf_snoc. by rewrite !app_nil_r.
Qed.

Lemma drainRun_accounts_any (events : list DrainEvent) (d : Drain) :
  yieldedOf (emitted (drainRun events d))
  ++ filter (λ m, truthy m = true) (queue (drainRun events d))
  = yieldedOf (emitted d) ++ filter (λ m, truthy m = true) (queue d)
    ++ filter (λ m, truthy m = true) (pushedOf events).
Proof.
  revert d. induction events as [|e events IH]; intros d.
  - cbn. by rewrite !app_nil_r.
  - change (drainRun (e :: events) d) with (drainRun events (drainStep d e)).
    rewrite IH. destruct e as [m| |].
    + cbn [drainStep queue emitted]. rewrite filter_app, <- !app_assoc.
      f_equal. f_equal. change (pushedOf (Push m :: events)) with (m :: pushedOf events).
      by rewrite <- filter_app.
    + change (pushedOf (Next :: events)) with (pushedOf events). rewrite app_assoc.
      unfold drainStep. destruct (pc d); rewrite ?resume_accounts_any, <- ?app_assoc; done.
    + change (pushedOf (TimerFired :: events)) with (pushedOf events). rewrite app_assoc.
      unfold drainStep. destruct (pc d); rewrite ?resume_accounts_any, <- ?app_assoc; done.
Qed.

Lemma pump_delivers_any (n : nat) (d : Drain) :
  length (filter (λ m, truthy m = true) (queue d)) ≤ n →
  yieldedOf (emitted (pump n d))
  = yieldedOf (emitted d) ++ filter (λ m, truthy m = true) (queue d).
Proof.
  revert d. induction n as [|n IH]; intros d Hn.
  - cbn [pump]. destruct (filter _ (queue d)); [by rewrite app_nil_r|cbn in Hn; lia].
  - cbn [pump]. rewrite drainStep_wake.
    pose proof (resume_accounts_any d) as Hacc.
    pose proof (innerLoop_filter (queue d)) as Hin.
    rewrite IH.
    + exact Hacc.
    + unfold resume. destruct (innerLoop (queue d)) as [[message|] rest]; cbn [queue].
      * rewrite Hin in Hn. cbn in Hn. lia.
      * destruct Hin as [_ ->]. cbn. lia.
Qed.

(** X9.  Whatever values are pushed, at any moments, the generator yields
    exactly the truthy ones, in the order of their pushes: what was yielded
    followed by the truthy values still queued is the list of the truthy
    values pushed, and resuming the generator once per queued value yields
    them all.  A falsy value in the queue is discarded without being
    yielded. *)
Theorem drain_yields_truthy_in_order (events : list DrainEvent) :
  let d := drainRun events initialDrain in
  yieldedOf (emitted d) ++ filter (λ m, truthy m = true) (queue d)
  = filter (λ m, truthy m = true) (pushedOf events) ∧
  yieldedOf (emitted (pump (length (queue d)) d))
  = filter (λ m, truthy m = true) (pushedOf events).
Proof.
  intros d. pose proof (drainRun_accounts_any events initialDrain) as H.
  fold d in H. cbn [initialDrain emitted queue yieldedOf omap app] in H.
  rewrite filter_nil in H. cbn [app] in H.
  split; [exact H|].
  rewrite pump_delivers_any; [exact H|]. apply length_filter.
Qed.

Lemma validate_accepts_iff_witness :
  (validateAndUseToken 300000 300000 (Some "ab12")
     (generateConnectionToken "ab12" 0 ∅).2).1 = true.
Proof.
  apply (proj2 (validate_accepts_iff 300000 300000 "ab12" (generateConnectionToken "ab12" 0 ∅).2)).
  split; [reflexivity|]. exists (mkToken "ab12" 0 false).
  split; [reflexivity|]. split; [reflexivity|]. split; vm_compute; discriminate.
Defined.

End ServerProps.

(** * Properties of the session manager *)

Module ClientProps.
Import Client.

(** ** Teardown *)

Lemma newEvents_app (st : State) ws' sb c k n m (events : list Event) :
  newEvents st (mkState ws' sb c k n m (trace st ++ events)) = events.
Proof. unfold newEvents. cbn [trace]. apply drop_app_length. Qed.

(** [stop] always returns; it changes nothing of the client but the count
    of stop requests and the trace. *)
Lemma stop_returns (env : Env) (arg : option (option bool)) (st : State) :
  ∃ (n : nat) (events : list Event),
    stop env arg st
    = (Returned tt,
       mkState (ws st) (sandboxId st) (resolvedClientId st) (resolvedPlatformApiKey st)
               (configRequests st) (n + stopRequests st) (trace st ++ events))
    ∧ stopsOf events
      = (if truthyStr (sandboxId st)
         then [(default EmptyString (sandboxId st),
                match arg with None => Some true | Some d => d end)]
         else [])
    ∧ errorsOf events
      = (if truthyStr (sandboxId st)
         then match sandboxStop env (stopRequests st) with
              | Rejected => ["Failed to call stop endpoint:"]
              | Responded response =>
                  if ok response then []
                  else ["Failed to stop sandbox: " +:+ text response]
              end
         else []).
Proof.
  unfold stop, bind, get, when, emit, countStopRequest, ret.
  destruct st as [w sb c k n m tr].
  cbn [ws sandboxId resolvedClientId resolvedPlatformApiKey
       configRequests stopRequests trace].
  destruct w as [w|], sb as [sb|]; cbn [bool_decide decide_rel is_Some_dec option_rect];
    try destruct (nonEmpty sb) eqn:Hsb;
    cbn beta iota match delta [ws sandboxId resolvedClientId resolvedPlatformApiKey
                               configRequests stopRequests trace];
    try (destruct (sandboxStop env m) as [|response]; [|destruct (ok response)]);
    cbn beta iota match delta [ws sandboxId resolvedClientId resolvedPlatformApiKey
                               configRequests stopRequests trace];
    rewrite <- ?app_assoc; cbn [app truthyStr]; rewrite ?Hsb;
    first [ by (exists 1; eexists; split; [reflexivity|]; split; reflexivity)
          | by (exists 0; eexists; split; [reflexivity|]; split; reflexivity)
          | by (exists 0, []; rewrite app_nil_r; split; [reflexivity|]; split; reflexivity) ].
Qed.

(** C4, as amended.  [stop] never throws: a rejected stop request or a
    non-success status is logged with [console.error] and nothing else
    happens.  [stop] does not clear the sandbox id, so every call, a second
    one in a row included, issues one stop request carrying the sandbox id
    when a sandbox was provisioned, and none when none was. *)
Theorem stop_never_throws_and_repeats (env : Env) (arg : option (option bool)) (st : State) :
  (stop env arg st).1 = Returned tt ∧
  sandboxId (stop env arg st).2 = sandboxId st ∧
  stopsOf (newEvents st (stop env arg st).2)
  = (if truthyStr (sandboxId st)
     then [(default EmptyString (sandboxId st), match arg with None => Some true | Some d => d end)]
     else []) ∧
  errorsOf (newEvents st (stop env arg st).2)
  = (if truthyStr (sandboxId st)
     then match sandboxStop env (stopRequests st) with
          | Rejected => ["Failed to call stop endpoint:"]
          | Responded response =>
              if ok response then [] else ["Failed to stop sandbox: " +:+ text response]
          end
     else []) ∧
  (∀ again,
     let st1 := (stop env arg st).2 in
     (stop env again st1).1 = Returned tt ∧
     (stopsOf (newEvents st1 (stop env again st1).2)).*1
     = (stopsOf (newEvents st (stop env arg st).2)).*1).
Proof.
  destruct (stop_returns env arg st) as (n & events & Hstop & Hstops & Herrors).
  rewrite Hstop. cbn [fst snd sandboxId]. rewrite newEvents_app.
  split; [done|]. split; [done|]. split; [done|]. split; [done|].
  intros again.
  destruct (stop_returns env again
              (mkState (ws st) (sandboxId st) (resolvedClientId st) (resolvedPlatformApiKey st)
                       (configRequests st) (n + stopRequests st) (trace st ++ events)))
    as (n' & events' & Hstop' & Hstops' & _).
  rewrite Hstop'. cbn [fst snd ws sandboxId resolvedClientId resolvedPlatformApiKey
                       configRequests stopRequests trace] in *.
  rewrite newEvents_app, Hstops', Hstops.
  by destruct (truthyStr (sandboxId st)).
Qed.

(** C4, as stated, fails: after a first [stop] whose request was rejected,
    so that the sandbox is still there, a second [stop] sends a stop request
    for the same sandbox id. *)
Lemma stop_twice_counterexample :
  ¬ (∀ (env : Env) (first second : option (option bool)) (st : State),
       let st1 := (stop env first st).2 in
       stopsOf (newEvents st1 (stop env second st1).2) = []).
Proof.
  intros H.
  specialize (H (mkEnv (mkClientOptions None (Some "sk") (Some "client-1") None None None None
                          (Some "https://platform.example") None None
                          VUndefined VUndefined VUndefined VUndefined)
                       ∅ Rejected (λ _, Rejected) (λ _, Rejected) true (λ s, s))
                None None
                (mkState None (Some "sb-1") (Some "client-1") None 0 0 [])).
  vm_compute in H. discriminate H.
Qed.

(** ** Which events a computation may add *)

Lemma only_ret {A} (P : Event → Prop) (a : A) : only P (ret a).
Proof. intros st. exists []. by rewrite app_nil_r. Qed.

Lemma only_throw {A} (P : Event → Prop) (e : Exn) : only P (throw (A := A) e).
Proof. intros st. exists []. by rewrite app_nil_r. Qed.

Lemma only_get (P : Event → Prop) : only P get.
Proof. intros st. exists []. by rewrite app_nil_r. Qed.

Lemma only_emit (P : Event → Prop) (e : Event) : P e → only P (emit e).
Proof. intros H st. exists [e]. split; [done|]. by apply Forall_singleton. Qed.

Lemma only_setSandboxId (P : Event → Prop) v : only P (setSandboxId v).
Proof. intros st. exists []. by rewrite app_nil_r. Qed.

Lemma only_setWs (P : Event → Prop) v : only P (setWs v).
Proof. intros st. exists []. by rewrite app_nil_r. Qed.

Lemma only_setResolved (P : Event → Prop) c k : only P (setResolved c k).
Proof. intros st. exists []. by rewrite app_nil_r. Qed.

Lemma only_countConfigRequest (P : Event → Prop) : only P countConfigRequest.
Proof. intros st. exists []. by rewrite app_nil_r. Qed.

Lemma only_countStopRequest (P : Event → Prop) : only P countStopRequest.
Proof. intros st. exists []. by rewrite app_nil_r. Qed.

Lemma only_bind {A B} (P : Event → Prop) (m : M A) (k : A → M B) :
  only P m → (∀ a, only P (k a)) → only P (bind m k).
Proof.
  intros Hm Hk st. unfold bind.
  destruct (Hm st) as (e1 & H1 & F1).
  destruct (m st) as [[a|e] st'] eqn:E; cbn [snd] in *.
  - destruct (Hk a st') as (e2 & H2 & F2).
    exists (e1 ++ e2). rewrite H2, H1, app_assoc. split; [done|]. by apply Forall_app.
  - by exists e1.
Qed.

Lemma only_when (P : Event → Prop) (b : bool) (m : M unit) : only P m → only P (when b m).
Proof. intros H. destruct b; [done|apply only_ret]. Qed.

Lemma only_weaken {A} (P Q : Event → Prop) (m : M A) :
  (∀ e, P e → Q e) → only P m → only Q m.
Proof.
  intros HPQ Hm st. destruct (Hm st) as (events & H & F).
  exists events. split; [done|]. by eapply Forall_impl.
Qed.

Lemma stop_only (P : Event → Prop) (env : Env) (arg : option (option bool)) :
  (∀ e, teardownEvent e → P e) → only P (stop env arg).
Proof.
  intros HP. unfold stop.
  apply only_bind; [apply only_get|]. intros st.
  apply only_bind; [apply only_when, only_emit, HP; exact I|]. intros _.
  destruct (sandboxId st) as [sandbox|]; [|apply only_ret].
  destruct (nonEmpty sandbox); [|apply only_ret].
  apply only_bind; [apply only_countStopRequest|]. intros n.
  apply only_bind; [apply only_emit, HP; exact I|]. intros _.
  destruct (sandboxStop env n) as [|response].
  - apply only_emit, HP. exact I.
  - destruct (ok response); [apply only_ret|]. apply only_emit, HP. exact I.
Qed.

Lemma runCleanup_only (P : Event → Prop) (env : Env) (connection : ConnectionDetails) :
  (∀ e, teardownEvent e → P e) → only P (runCleanup env connection).
Proof.
  intros HP. unfold runCleanup.
  destruct (cleanup connection) as [[]|]; [by apply stop_only|apply only_ret].
Qed.

Lemma postConfig_only (P : Event → Prop) env connection payload :
  P (ConfigRequest (configUrl connection) (configHeaders connection) payload) →
  only P (postConfig env connection payload).
Proof.
  intros HP. unfold postConfig.
  apply only_bind; [apply only_countConfigRequest|]. intros n.
  apply only_bind; [by apply only_emit|]. intros _. apply only_ret.
Qed.

Lemma configLoop_only (P : Event → Prop) env connection payload fuel attempt previous :
  P (ConfigRequest (configUrl connection) (configHeaders connection) payload) →
  P (Sleep 3000) →
  only P (configLoop env connection payload fuel attempt previous).
Proof.
  intros Hreq Hsleep. revert attempt previous.
  induction fuel as [|fuel IH]; intros attempt previous; cbn [configLoop]; [apply only_ret|].
  destruct (attempt <=? maxConfigAttempts)%nat; [|apply only_ret].
  apply only_bind; [by apply postConfig_only|]. intros configResponse.
  destruct (succeeded configResponse); [apply only_ret|].
  apply only_bind; [by apply only_when, only_emit|]. intros _. apply IH.
Qed.

Lemma configure_only (P : Event → Prop) env connection apiKey :
  P (requestOf env connection apiKey) → P (Sleep 3000) →
  (∀ e, teardownEvent e → P e) →
  only P (configure env connection apiKey).
Proof.
  intros Hreq Hsleep Htear. unfold configure. cbn zeta.
  apply only_bind; [by apply configLoop_only|]. intros [response|].
  - destruct (ok response); [apply only_ret|].
    apply only_bind; [by apply runCleanup_only|]. intros _. apply only_throw.
  - apply only_bind; [by apply runCleanup_only|]. intros _. apply only_throw.
Qed.

Lemma handshake_only (P : Event → Prop) env connection configResponse :
  (∀ token, P (WebSocketOpen (webSocketUrl env connection token))) →
  (∀ e, teardownEvent e → P e) →
  only P (handshake env connection configResponse).
Proof.
  intros Hopen Htear. unfold handshake.
  destruct (json configResponse) as [connectionToken|]; [|apply only_throw].
  destruct (truthyStr connectionToken); cbn [negb].
  - apply only_bind; [by apply only_emit|]. intros _.
    apply only_bind; [apply only_setWs|]. intros _.
    destruct (webSocketOpens env); [apply only_ret|].
    apply only_bind; [apply only_emit, Htear; exact I|]. intros _. apply only_throw.
  - apply only_bind; [by apply runCleanup_only|]. intros _. apply only_throw.
Qed.

(** Once the connection is chosen, a session only talks to its two
    endpoints, waits, and tears down. *)
Lemma session_only env connection apiKey :
  only (fromConnection env connection)
       (bind (configure env connection apiKey) (handshake env connection)).
Proof.
  apply only_bind.
  - apply configure_only; [done|done|]. by intros [].
  - intros configResponse. apply handshake_only; [|by intros []].
    intros token. by exists token.
Qed.

(** ** The retry loop, step by step *)

Section Retry.
Variable env : Env.
Variable connection : ConnectionDetails.
Variable payload : ConfigPayload.

Let request : Event :=
  ConfigRequest (configUrl connection) (configHeaders connection) payload.

Lemma advance_advance st a b (e1 e2 : list Event) :
  advance (advance st a e1) b e2 = advance st (a + b) (e1 ++ e2).
Proof.
  unfold advance. cbn [ws sandboxId resolvedClientId resolvedPlatformApiKey
                       configRequests stopRequests trace].
  f_equal; [lia|by rewrite app_assoc].
Qed.

Lemma postConfig_eval st :
  postConfig env connection payload st
  = (Returned (responseAt env (configRequests st)), advance st 1 [request]).
Proof. reflexivity. Qed.

Lemma failed_not_succeeded n :
  attemptFailed env n = true → succeeded (responseAt env n) = false.
Proof.
  unfold attemptFailed, succeeded, responseAt.
  destruct (configPost env n) as [|response]; [done|]. by destruct (ok response).
Qed.

Lemma configLoop_unfold fuel attempt previous :
  configLoop env connection payload (S fuel) attempt previous
  = if (attempt <=? maxConfigAttempts)%nat then
      configResponse <- postConfig env connection payload ;;
      if succeeded configResponse then ret configResponse
      else
        when (attempt <? maxConfigAttempts)%nat (emit (Sleep 3000)) ;;
        configLoop env connection payload fuel (S attempt) configResponse
    else ret previous.
Proof. reflexivity. Qed.

(** The loop test fails: the loop is left. *)
Lemma configLoop_done fuel attempt previous st :
  maxConfigAttempts < attempt →
  configLoop env connection payload fuel attempt previous st = (Returned previous, st).
Proof.
  intros H. destruct fuel as [|fuel]; [done|]. cbn [configLoop].
  by rewrite (proj2 (Nat.leb_gt attempt maxConfigAttempts) H).
Qed.

(** A successful attempt leaves the loop at once, without a wait. *)
Lemma configLoop_step_ok fuel attempt previous st response :
  attempt ≤ maxConfigAttempts →
  configPost env (configRequests st) = Responded response → ok response = true →
  configLoop env connection payload (S fuel) attempt previous st
  = (Returned (Some response), advance st 1 [request]).
Proof.
  intros Ha Hpost Hok. cbn [configLoop].
  rewrite (proj2 (Nat.leb_le attempt maxConfigAttempts) Ha).
  unfold bind at 1. rewrite postConfig_eval.
  unfold responseAt. rewrite Hpost. cbn [succeeded]. by rewrite Hok.
Qed.

(** A failed attempt is followed by the wait, except the last one, and
    the loop goes on with the next attempt. *)
Lemma configLoop_step_fail fuel attempt previous st :
  attempt ≤ maxConfigAttempts →
  attemptFailed env (configRequests st) = true →
  configLoop env connection payload (S fuel) attempt previous st
  = configLoop env connection payload fuel (S attempt) (responseAt env (configRequests st))
      (advance st 1 (request :: if (attempt <? maxConfigAttempts)%nat then [Sleep 3000] else [])).
Proof.
  intros Ha Hfail. cbn [configLoop].
  rewrite (proj2 (Nat.leb_le attempt maxConfigAttempts) Ha).
  unfold bind at 1. rewrite postConfig_eval.
  rewrite (failed_not_succeeded _ Hfail).
  unfold bind at 1, when.
  destruct (attempt <? maxConfigAttempts)%nat.
  - unfold emit at 1. f_equal. unfold advance. cbn [ws sandboxId resolvedClientId
      resolvedPlatformApiKey configRequests stopRequests trace].
    by rewrite <- app_assoc.
  - done.
Qed.

(** [k] failures, then a success, within the budget. *)
Lemma configLoop_success k : ∀ fuel attempt previous st response,
  attempt + k ≤ maxConfigAttempts → k < fuel →
  (∀ i, i < k → attemptFailed env (i + configRequests st) = true) →
  configPost env (k + configRequests st) = Responded response → ok response = true →
  configLoop env connection payload fuel attempt previous st
  = (Returned (Some response), advance st (S k) (failedAttempts request k ++ [request])).
Proof.
  induction k as [|k IH]; intros fuel attempt previous st response Ha Hfuel Hfail Hpost Hok.
  - destruct fuel as [|fuel]; [lia|].
    apply configLoop_step_ok; [lia|done|done].
  - destruct fuel as [|fuel]; [lia|].
    rewrite configLoop_step_fail; [|lia|apply (Hfail 0); lia].
    rewrite (proj2 (Nat.ltb_lt attempt maxConfigAttempts)) by lia.
    rewrite (IH fuel (S attempt) _ _ response); [| lia | lia | | | done].
    + rewrite advance_advance. done.
    + intros i Hi. cbn [advance configRequests].
      replace (i + (1 + configRequests st)) with (S i + configRequests st) by lia.
      apply Hfail. lia.
    + cbn [advance configRequests].
      by replace (k + (1 + configRequests st)) with (S k + configRequests st) by lia.
Qed.


(** The fuel given by [start] is never what ends the loop: more fuel
    changes nothing. *)
Lemma configLoop_fuel fuel : ∀ attempt previous st,
  S maxConfigAttempts ≤ attempt + fuel →
  configLoop env connection payload (S fuel) attempt previous st
  = configLoop env connection payload fuel attempt previous st.
Proof.
  induction fuel as [|fuel IH]; intros attempt previous st H.
  - rewrite !configLoop_done; [done|lia|lia].
  - rewrite (configLoop_unfold (S fuel)), (configLoop_unfold fuel).
    destruct (attempt <=? maxConfigAttempts)%nat eqn:E; [|done].
    unfold bind at 1 3. rewrite postConfig_eval.
    destruct (succeeded _); [done|].
    unfold bind at 1 2.
    destruct (when _ _ _) as [[[]|e] st']; [|done].
    apply (IH (S attempt)). lia.
Qed.


End Retry.

(** ** Counting configuration requests *)






Lemma newEvents_trace (st st' : State) (events : list Event) :
  trace st' = trace st ++ events → newEvents st st' = events.
Proof. intros H. unfold newEvents. rewrite H. apply drop_app_length. Qed.

Lemma connect_only (P : Event → Prop) (env : Env) :
  (∀ e, isSandboxStart e = true → P e) → only P (connect env).
Proof.
  intros HP. unfold connect.
  destruct (truthyStr (connectionUrl (options env))); [apply only_ret|].
  unfold setupPlatformConnection.
  apply only_bind; [apply only_get|]. intros st.
  destruct (negb (truthyStr (resolvedClientId st))); [apply only_throw|].
  apply only_bind; [by apply only_emit, HP|]. intros _.
  destruct (sandboxStart env) as [|response]; [apply only_throw|].
  destruct (negb (ok response)); [apply only_throw|].
  destruct (json response) as [sandbox|]; [|apply only_throw].
  apply only_bind; [apply only_setSandboxId|]. intros _.
  destruct (resolveUseProxy env && truthyStr (proxyUrl sandbox)); apply only_ret.
Qed.


(** ** [start], stage by stage *)

Lemma runCleanup_returns (env : Env) (connection : ConnectionDetails) (st : State) :
  ∃ (n : nat) (events : list Event),
    runCleanup env connection st
    = (Returned tt,
       mkState (ws st) (sandboxId st) (resolvedClientId st) (resolvedPlatformApiKey st)
               (configRequests st) (n + stopRequests st) (trace st ++ events))
    ∧ Forall teardownEvent events
    ∧ stopsOf events
      = match cleanup connection with
        | Some StopAndDelete =>
            if truthyStr (sandboxId st)
            then [(default EmptyString (sandboxId st), Some true)] else []
        | None => []
        end.
Proof.
  destruct (runCleanup_only teardownEvent env connection (λ e H, H) st) as (events' & Htr & F).
  unfold runCleanup in *. destruct (cleanup connection) as [[]|].
  - destruct (stop_returns env (Some (Some true)) st) as (n & events & Hstop & Hstops & _).
    exists n, events. split; [done|]. split; [|done].
    rewrite Hstop in Htr. cbn [snd trace] in Htr. apply app_inv_head in Htr. by subst.
  - exists 0, []. unfold ret. rewrite app_nil_r. split; [by destruct st|]. by split.
Qed.

Lemma start_stages (env : Env) (st st1 : State) apiKey connection :
  resolveApiKey env = Some apiKey → nonEmpty apiKey = true →
  bind (resolveIdentity env) (λ _, connect env) st = (Returned connection, st1) →
  start env st = bind (configure env connection apiKey) (handshake env connection) st1.
Proof.
  intros Hkey Hne Hconn. unfold start. cbn zeta. rewrite Hkey. cbn [truthyStr default].
  rewrite Hne. cbn [negb].
  unfold bind at 1. unfold bind at 1 in Hconn.
  destruct (resolveIdentity env st) as [[[]|e] st0]; [|done].
  unfold bind at 1. by rewrite Hconn.
Qed.

Lemma configure_success (env : Env) connection apiKey (st : State) k response :
  k < maxConfigAttempts →
  (∀ i, i < k → attemptFailed env (i + configRequests st) = true) →
  configPost env (k + configRequests st) = Responded response → ok response = true →
  configure env connection apiKey st
  = (Returned response,
     advance st (S k) (failedAttempts (requestOf env connection apiKey) k
                       ++ [requestOf env connection apiKey])).
Proof.
  intros Hk Hfail Hpost Hok. unfold configure. cbn zeta. unfold bind at 1.
  rewrite (configLoop_success env connection (payloadOf env apiKey) k
             maxConfigAttempts 1 None st response); [|lia|lia|done|done|done].
  by rewrite Hok.
Qed.


Lemma handshake_token (env : Env) connection (response : HttpResponse ConfigReply)
    token (st : State) :
  json response = Some (Some token) → nonEmpty token = true →
  handshake env connection response st
  = (if webSocketOpens env then Returned tt else Thrown WebSocketError,
     mkState (Some (webSocketUrl env connection token)) (sandboxId st)
             (resolvedClientId st) (resolvedPlatformApiKey st)
             (configRequests st) (stopRequests st)
             (trace st ++ WebSocketOpen (webSocketUrl env connection token)
                          :: if webSocketOpens env then []
                             else [ConsoleError "WebSocket error:"])).
Proof.
  intros Hjson Hne. unfold handshake. rewrite Hjson. cbn [truthyStr default]. rewrite Hne.
  cbn [negb]. unfold bind, emit, setWs, throw, ret.
  destruct (webSocketOpens env); cbn; by rewrite <- ?app_assoc.
Qed.



(** Four failures, then a success: the fifth request is the last, and the
    socket is opened with the token. *)
Example start_after_four_failures :
  let env :=
    mkEnv (mkClientOptions (Some "http://localhost:3000/") (Some "sk") None None None None None
             None None None VUndefined VUndefined VUndefined VUndefined)
          ∅ Rejected
          (λ n, if (n <? 4)%nat then Rejected
                else Responded (mkHttpResponse true 200 EmptyString (Some (Some "c0ffee"))))
          (λ _, Rejected) true (λ s, s) in
  (start env newClient).1 = Returned tt ∧
  ws (start env newClient).2 = Some "ws://localhost:3000/ws?token=c0ffee" ∧
  configTargets (trace (start env newClient).2)
  = replicate 5 "http://localhost:3000/config" ∧
  sleepsOf (trace (start env newClient).2) = replicate 4 3000%Z.
Proof. vm_compute. repeat split; reflexivity. Qed.

(** ** Mode selection *)

Lemma replace_absent (pattern replacement s : string) :
  occurs pattern s = false → replace pattern replacement s = s.
Proof.
  induction s as [|c s IH]; cbn [occurs replace]; intros H;
    apply orb_false_iff in H as [H1 H2]; rewrite H1; [done|].
  by rewrite IH.
Qed.

Lemma prefix_empty (s : string) : String.prefix EmptyString s = true.
Proof. by destruct s. Qed.

Lemma schemeFree_absent (s : string) :
  schemeFree s = true →
  occurs "http://" s = false ∧ occurs "https://" s = false
  ∧ occurs "ws://" s = false ∧ occurs "wss://" s = false.
Proof.
  unfold schemeFree. intros H.
  repeat (apply andb_true_iff in H as [H ?]).
  repeat split; by apply negb_true_iff.
Qed.

(** On a URL made of one of the four schemes and a rest that contains
    none, the two replacements substitute the scheme and nothing else. *)
Lemma scheme_substitution (rest : string) :
  schemeFree rest = true →
  let toHttp base := replace "wss://" "https://" (replace "ws://" "http://" base) in
  let toWs base := replace "https://" "wss://" (replace "http://" "ws://" base) in
  (toHttp ("http://" +:+ rest) = "http://" +:+ rest ∧ toWs ("http://" +:+ rest) = "ws://" +:+ rest) ∧
  (toHttp ("https://" +:+ rest) = "https://" +:+ rest ∧ toWs ("https://" +:+ rest) = "wss://" +:+ rest) ∧
  (toHttp ("ws://" +:+ rest) = "http://" +:+ rest ∧ toWs ("ws://" +:+ rest) = "ws://" +:+ rest) ∧
  (toHttp ("wss://" +:+ rest) = "https://" +:+ rest ∧ toWs ("wss://" +:+ rest) = "wss://" +:+ rest).
Proof.
  intros Hfree toHttp toWs. subst toHttp toWs.
  destruct (schemeFree_absent rest Hfree) as (H1 & H2 & H3 & H4).
  repeat split; cbv beta iota delta [String.append]; cbn;
    rewrite ?prefix_empty; cbv beta iota delta [String.append]; cbn;
    rewrite ?(replace_absent "ws://" _ rest H3), ?(replace_absent "http://" _ rest H1),
            ?(replace_absent "wss://" _ rest H4), ?(replace_absent "https://" _ rest H2);
    reflexivity.
Qed.

Lemma only_ext {A} (P : Event → Prop) (m m' : M A) :
  (∀ st, m st = m' st) → only P m' → only P m.
Proof. intros Heq H st. rewrite Heq. apply H. Qed.

(** With an explicit URL the connection is computed from it, without any
    request. *)
Lemma connect_local (env : Env) (u : string) (st : State) :
  connectionUrl (options env) = Some u → nonEmpty u = true →
  connect env st
  = (Returned
       (mkConnection
          (replace "wss://" "https://" (replace "ws://" "http://" (stripTrailingSlash u))
           +:+ "/config")
          (replace "https://" "wss://" (replace "http://" "ws://" (stripTrailingSlash u))
           +:+ "/ws")
          None None None),
     st).
Proof.
  intros Hu Hne. unfold connect, setupLocalConnection.
  rewrite Hu. cbn [truthyStr orElse]. rewrite Hne. reflexivity.
Qed.

Lemma start_local_only (env : Env) (u : string) :
  connectionUrl (options env) = Some u → nonEmpty u = true →
  only (fromConnection env
          (mkConnection
             (replace "wss://" "https://" (replace "ws://" "http://" (stripTrailingSlash u))
              +:+ "/config")
             (replace "https://" "wss://" (replace "http://" "ws://" (stripTrailingSlash u))
              +:+ "/ws")
             None None None))
       (start env).
Proof.
  intros Hu Hne. unfold start. cbn zeta.
  destruct (negb (truthyStr (resolveApiKey env))); [apply only_throw|].
  apply only_bind; [apply only_setResolved|]. intros _.
  eapply only_ext; [|apply session_only].
  intros st. unfold bind at 1. rewrite (connect_local env u st Hu Hne). reflexivity.
Qed.

(** Without an explicit URL, with the proxy enabled and a proxy URL in the
    platform's answer, the connection is the proxy's. *)
Lemma connect_proxy (env : Env) (st : State) client response sandbox proxy :
  truthyStr (connectionUrl (options env)) = false →
  orUndefined (orElse (clientId (options env)) (processEnv env !! "CASTARI_CLIENT_ID"))
  = Some client →
  sandboxStart env = Responded response → ok response = true →
  json response = Some sandbox →
  resolveUseProxy env = true → proxyUrl sandbox = Some proxy → nonEmpty proxy = true →
  ∃ request st1,
    bind (resolveIdentity env) (λ _, connect env) st
    = (Returned (mkConnection
                   (resolvePlatformUrl env +:+ "/proxy/" +:+ id sandbox +:+ "/config")
                   proxy None None (Some StopAndDelete)),
       st1)
    ∧ trace st1 = trace st ++ [request]
    ∧ isSandboxStart request = true
    ∧ sandboxId st1 = Some (id sandbox)
    ∧ configRequests st1 = configRequests st.
Proof.
  intros Hlocal Hclient Hstart Hok Hjson Hproxy Hurl Hne.
  assert (nonEmpty client = true) as Hc.
  { pose proof Hclient as Hc0. unfold orUndefined in Hc0.
    destruct (orElse _ _) as [c|]; cbn [truthyStr] in Hc0; [|done].
    destruct (nonEmpty c) eqn:E; [|done]. by injection Hc0 as <-. }
  unfold bind at 1, resolveIdentity, setResolved. rewrite Hclient.
  unfold connect. rewrite Hlocal.
  unfold setupPlatformConnection, bind, get, emit, setSandboxId, ret.
  cbn [resolvedClientId truthyStr]. rewrite Hc. cbn [negb].
  rewrite Hstart, Hok. cbn [negb]. rewrite Hjson, Hproxy, Hurl.
  cbn [truthyStr andb default]. rewrite Hne.
  eexists _, _. split; [reflexivity|]. by cbn.
Qed.

Lemma bind_bind {A B C} (m : M A) (f : A → M B) (g : B → M C) (st : State) :
  bind (bind m f) g st = bind m (λ a, bind (f a) g) st.
Proof. unfold bind. by destruct (m st) as [[a|e] st']. Qed.

(** The query of the socket URL when the connection has no parameters of
    its own. *)
Lemma webSocketUrl_plain (env : Env) (connection : ConnectionDetails) (token : string) :
  authParams connection = None →
  webSocketUrl env connection token
  = wsUrl connection +:+ (if includes "?"%char (wsUrl connection) then "&" else "?")
    +:+ formUrlEncode env "token" +:+ "=" +:+ formUrlEncode env token.
Proof. intros H. unfold webSocketUrl. rewrite H. reflexivity. Qed.

(** Whatever the connection, the session opens with a configuration
    request to its configuration URL, and, when an attempt within the
    budget succeeds with a token, opens the socket on its transport URL. *)
Lemma session_targets (env : Env) (connection : ConnectionDetails) (apiKey : string)
    (st : State) :
  let session := bind (configure env connection apiKey) (handshake env connection) in
  (∃ events,
     trace (session st).2 = trace st ++ requestOf env connection apiKey :: events
     ∧ Forall (fromConnection env connection) events) ∧
  (∀ k (response : HttpResponse ConfigReply) token,
     k < maxConfigAttempts →
     (∀ i, i < k → attemptFailed env (i + configRequests st) = true) →
     configPost env (k + configRequests st) = Responded response → ok response = true →
     json response = Some (Some token) → nonEmpty token = true →
     ws (session st).2 = Some (webSocketUrl env connection token)
     ∧ ∃ before after,
         trace (session st).2
         = trace st ++ before ++ WebSocketOpen (webSocketUrl env connection token) :: after).
Proof.
  intros session. split.
  - subst session. unfold configure. cbn zeta.
    change maxConfigAttempts with (S 4) at 1. rewrite configLoop_unfold.
    change (1 <=? maxConfigAttempts)%nat with true. cbn iota.
    rewrite !bind_bind. unfold bind at 1. rewrite postConfig_eval.
    match goal with
    | |- context [trace (?rest (advance st 1 ?evs)).2] =>
        assert (only (fromConnection env connection) rest) as Hrest
    end.
    { assert (only (fromConnection env connection) (runCleanup env connection)) as Hclean
        by (apply runCleanup_only; by intros []).
      apply only_bind.
      - destruct (succeeded _); [apply only_ret|].
        apply only_bind; [by apply only_when, only_emit|]. intros _.
        by apply configLoop_only.
      - intros configResponse. apply only_bind.
        + destruct configResponse as [response|].
          * destruct (ok response); [apply only_ret|].
            apply only_bind; [done|]. intros _. apply only_throw.
          * apply only_bind; [done|]. intros _. apply only_throw.
        + intros response. apply handshake_only; [|by intros []].
          intros token. by exists token. }
    destruct (Hrest (advance st 1 [ConfigRequest (configUrl connection)
                                      (configHeaders connection) (payloadOf env apiKey)]))
      as (events & Htr & F).
    exists events. split; [|done]. rewrite Htr. cbn [trace advance].
    by rewrite <- app_assoc.
  - intros k response token Hk Hfail Hpost Hok Hjson Htoken.
    assert (session st
            = handshake env connection response
                (advance st (S k) (failedAttempts (requestOf env connection apiKey) k
                                   ++ [requestOf env connection apiKey]))) as ->.
    { subst session. unfold bind at 1.
      by rewrite (configure_success env connection apiKey st k response Hk Hfail Hpost Hok). }
    rewrite (handshake_token env connection response token _ Hjson Htoken).
    cbn [snd ws trace advance]. split; [done|].
    eexists (failedAttempts _ k ++ [_]), _. rewrite <- !app_assoc. reflexivity.
Qed.

Lemma newEvents_elem (st st' : State) (e : Event) (before after : list Event) :
  trace st' = trace st ++ before ++ e :: after → e ∈ newEvents st st'.
Proof.
  intros H. rewrite (newEvents_trace _ _ _ H).
  apply elem_of_app. right. apply elem_of_cons. by left.
Qed.

(** C6, as amended.  With an explicit direct URL, [start] never sends a
    provisioning request.  The connection is computed from the URL, less
    one trailing slash: the configuration URL by replacing the first "ws://"
    by "http://" and then the first "wss://" by "https://", with "/config"
    appended; the transport URL by replacing the first "http://" by "ws://"
    and then the first "https://" by "wss://", with "/ws" appended.  This is
    the substitution of the scheme whenever the URL is one of the four
    schemes followed by a text that contains none of them.  [start] sends
    its configuration requests to that configuration URL, the first event
    being one, and opens its socket on that transport URL with the token in
    the query.  Without a direct URL, with the proxy enabled (which it is
    when nothing says otherwise) and a proxy URL in the provisioning
    response, the connection is the platform's /proxy/<id>/config and the
    proxy URL: after the provisioning request, the configuration requests
    go to the former and the socket to the latter, and the sandbox's own URL
    is not used. *)
Theorem mode_selection (env : Env) (st : State) :
  (∀ u,
     connectionUrl (options env) = Some u → nonEmpty u = true →
     let base := stripTrailingSlash u in
     let connection :=
       mkConnection
         (replace "wss://" "https://" (replace "ws://" "http://" base) +:+ "/config")
         (replace "https://" "wss://" (replace "http://" "ws://" base) +:+ "/ws")
         None None None in
     connect env st = (Returned connection, st) ∧
     Forall (fromConnection env connection) (newEvents st (start env st).2) ∧
     (∀ token,
        webSocketUrl env connection token
        = wsUrl connection +:+ (if includes "?"%char (wsUrl connection) then "&" else "?")
          +:+ formUrlEncode env "token" +:+ "=" +:+ formUrlEncode env token) ∧
     (∀ apiKey, resolveApiKey env = Some apiKey → nonEmpty apiKey = true →
        (∃ events,
           newEvents st (start env st).2 = requestOf env connection apiKey :: events) ∧
        ∀ k (response : HttpResponse ConfigReply) token,
          k < 5 → (∀ i, i < k → attemptFailed env (i + configRequests st) = true) →
          configPost env (k + configRequests st) = Responded response → ok response = true →
          json response = Some (Some token) → nonEmpty token = true →
          ws (start env st).2 = Some (webSocketUrl env connection token)
          ∧ WebSocketOpen (webSocketUrl env connection token) ∈ newEvents st (start env st).2) ∧
     ∀ rest, schemeFree rest = true →
       (base = "http://" +:+ rest →
        configUrl connection = "http://" +:+ rest +:+ "/config"
        ∧ wsUrl connection = "ws://" +:+ rest +:+ "/ws") ∧
       (base = "https://" +:+ rest →
        configUrl connection = "https://" +:+ rest +:+ "/config"
        ∧ wsUrl connection = "wss://" +:+ rest +:+ "/ws") ∧
       (base = "ws://" +:+ rest →
        configUrl connection = "http://" +:+ rest +:+ "/config"
        ∧ wsUrl connection = "ws://" +:+ rest +:+ "/ws") ∧
       (base = "wss://" +:+ rest →
        configUrl connection = "https://" +:+ rest +:+ "/config"
        ∧ wsUrl connection = "wss://" +:+ rest +:+ "/ws")) ∧
  (useProxy (options env) = None → processEnv env !! "CASTARI_USE_PROXY" = None →
   resolveUseProxy env = true) ∧
  (∀ apiKey client response sandbox proxy,
     truthyStr (connectionUrl (options env)) = false →
     resolveApiKey env = Some apiKey → nonEmpty apiKey = true →
     orUndefined (orElse (clientId (options env)) (processEnv env !! "CASTARI_CLIENT_ID"))
     = Some client →
     sandboxStart env = Responded response → ok response = true →
     json response = Some sandbox →
     resolveUseProxy env = true → proxyUrl sandbox = Some proxy → nonEmpty proxy = true →
     let connection :=
       mkConnection (resolvePlatformUrl env +:+ "/proxy/" +:+ id sandbox +:+ "/config")
                    proxy None None (Some StopAndDelete) in
     (∃ st1, bind (resolveIdentity env) (λ _, connect env) st = (Returned connection, st1)) ∧
     (∃ request events,
        newEvents st (start env st).2
        = request :: requestOf env connection apiKey :: events
        ∧ isSandboxStart request = true
        ∧ Forall (fromConnection env connection) events) ∧
     (∀ token,
        webSocketUrl env connection token
        = proxy +:+ (if includes "?"%char proxy then "&" else "?")
          +:+ formUrlEncode env "token" +:+ "=" +:+ formUrlEncode env token) ∧
     ∀ k (response' : HttpResponse ConfigReply) token,
       k < 5 → (∀ i, i < k → attemptFailed env (i + configRequests st) = true) →
       configPost env (k + configRequests st) = Responded response' → ok response' = true →
       json response' = Some (Some token) → nonEmpty token = true →
       ws (start env st).2 = Some (webSocketUrl env connection token)
       ∧ WebSocketOpen (webSocketUrl env connection token) ∈ newEvents st (start env st).2).
Proof.
  split; [|split].
  - intros u Hu Hne base connection.
    pose proof (connect_local env u st Hu Hne) as Hlocal. fold base connection in Hlocal.
    split; [exact Hlocal|]. split; [|split; [|split]].
    + destruct (start_local_only env u Hu Hne st) as (events & Htr & F).
      by rewrite (newEvents_trace _ _ _ Htr).
    + intros token. by apply webSocketUrl_plain.
    + intros apiKey Hkey Hkne.
      assert (bind (resolveIdentity env) (λ _, connect env) st
              = (Returned connection, (resolveIdentity env st).2)) as Hconn.
      { unfold bind, resolveIdentity, setResolved. cbn. by apply connect_local. }
      rewrite (start_stages env st _ apiKey connection Hkey Hkne Hconn).
      destruct (session_targets env connection apiKey (resolveIdentity env st).2)
        as [(events & Htr & _) Hsocket].
      split.
      * exists events. by apply (newEvents_trace st) in Htr.
      * intros k response token Hk Hfail Hpost Hok Hjson Htoken.
        destruct (Hsocket k response token Hk Hfail Hpost Hok Hjson Htoken)
          as (Hws & before & after & Hopen).
        split; [exact Hws|]. by apply (newEvents_elem st _ _ before after).
    + intros rest Hfree.
      destruct (scheme_substitution rest Hfree) as ([A1 A2] & [B1 B2] & [C1 C2] & [D1 D2]).
      subst connection base. cbn [configUrl wsUrl]. cbn zeta in *.
      split; [|split; [|split]]; intros Hbase; rewrite Hbase;
        rewrite ?A1, ?A2, ?B1, ?B2, ?C1, ?C2, ?D1, ?D2; split; reflexivity.
  - intros Hu Hp. unfold resolveUseProxy. rewrite Hu, Hp. reflexivity.
  - intros apiKey client response sandbox proxy Hlocal Hkey Hne Hclient Hstart Hok Hjson
      Hproxy Hurl Hpne connection.
    destruct (connect_proxy env st client response sandbox proxy
                Hlocal Hclient Hstart Hok Hjson Hproxy Hurl Hpne)
      as (request & st1 & Hconn & Htr1 & Hreq & _ & Hcount).
    fold connection in Hconn.
    split; [by exists st1|].
    rewrite (start_stages env st st1 apiKey connection Hkey Hne Hconn).
    destruct (session_targets env connection apiKey st1) as [(events & Htr & F) Hsocket].
    split; [|split].
    + exists request, events. split; [|by split].
      apply newEvents_trace. rewrite Htr, Htr1, <- app_assoc. reflexivity.
    + intros token. by apply webSocketUrl_plain.
    + intros k response' token Hk Hfail Hpost Hok' Hjson' Htoken.
      rewrite <- Hcount in Hfail, Hpost.
      destruct (Hsocket k response' token Hk Hfail Hpost Hok' Hjson' Htoken)
        as (Hws & before & after & Hopen).
      split; [exact Hws|].
      apply (newEvents_elem st _ _ (request :: before) after).
      rewrite Hopen, Htr1, <- app_assoc. reflexivity.
Qed.

Lemma mode_selection_witness :
  let local :=
    mkEnv (mkClientOptions (Some "http://localhost:3000/") (Some "sk") None None None None None
             None None None VUndefined VUndefined VUndefined VUndefined)
          ∅ Rejected
          (λ _, Responded (mkHttpResponse true 200 EmptyString (Some (Some "c0ffee"))))
          (λ _, Rejected) true (λ s, s) in
  let sandbox :=
    mkSandbox "sb-1" "https://sb.example" (Some "wss://platform.example/proxy/sb-1/ws")
              None None in
  let response := mkHttpResponse true 200 EmptyString (Some sandbox) in
  let platform :=
    mkEnv (mkClientOptions None (Some "sk") (Some "client-1") None None None None
             (Some "https://platform.example") None None
             VUndefined VUndefined VUndefined VUndefined)
          ∅ (Responded response)
          (λ _, Responded (mkHttpResponse true 200 EmptyString (Some (Some "c0ffee"))))
          (λ _, Rejected) true (λ s, s) in
  let proxied :=
    mkConnection "https://platform.example/proxy/sb-1/config"
                 "wss://platform.example/proxy/sb-1/ws" None None (Some StopAndDelete) in
  connect local newClient
  = (Returned (mkConnection "http://localhost:3000/config" "ws://localhost:3000/ws"
                            None None None),
     newClient)
  ∧ ws (start local newClient).2 = Some "ws://localhost:3000/ws?token=c0ffee"
  ∧ (∃ request events,
       newEvents newClient (start platform newClient).2
       = request :: requestOf platform proxied "sk" :: events
       ∧ isSandboxStart request = true
       ∧ Forall (fromConnection platform proxied) events)
  ∧ ws (start platform newClient).2
    = Some "wss://platform.example/proxy/sb-1/ws?token=c0ffee".
Proof.
  intros local sandbox response platform proxied.
  destruct (proj1 (mode_selection local newClient) "http://localhost:3000/" eq_refl eq_refl)
    as (Hconnect & _ & _ & Hstart & _).
  destruct (Hstart "sk" eq_refl eq_refl) as [_ Hsocket].
  destruct (proj2 (proj2 (mode_selection platform newClient))
              "sk" "client-1" response sandbox "wss://platform.example/proxy/sb-1/ws"
              eq_refl eq_refl eq_refl eq_refl eq_refl eq_refl eq_refl eq_refl eq_refl eq_refl)
    as (_ & Hevents & _ & Hproxied).
  split; [exact Hconnect|]. split; [|split; [exact Hevents|]].
  - exact (proj1 (Hsocket 0 (mkHttpResponse true 200 EmptyString (Some (Some "c0ffee")))
                    "c0ffee" ltac:(lia) ltac:(intros i Hi; lia)
                    eq_refl eq_refl eq_refl eq_refl)).
  - exact (proj1 (Hproxied 0 (mkHttpResponse true 200 EmptyString (Some (Some "c0ffee")))
                    "c0ffee" ltac:(lia) ltac:(intros i Hi; lia)
                    eq_refl eq_refl eq_refl eq_refl)).
Defined.

(** C6, as stated, fails on a URL that holds the text of a scheme past its
    own: the replacement of the first "ws://" rewrites the query, which a
    substitution of the scheme leaves alone. *)
Lemma mode_selection_counterexample :
  ¬ (∀ (env : Env) (st : State) (u : string),
       connectionUrl (options env) = Some u → nonEmpty u = true →
       ∃ connection st',
         connect env st = (Returned connection, st')
         ∧ configUrl connection = specToHttp (stripTrailingSlash u) +:+ "/config"
         ∧ wsUrl connection = specToWs (stripTrailingSlash u) +:+ "/ws").
Proof.
  intros H.
  destruct (H (mkEnv (mkClientOptions (Some "http://localhost:3000/?next=ws://other")
                        (Some "sk") None None None None None None None None
                        VUndefined VUndefined VUndefined VUndefined)
                     ∅ Rejected (λ _, Rejected) (λ _, Rejected) true (λ s, s))
              newClient "http://localhost:3000/?next=ws://other" eq_refl eq_refl)
    as (connection & st' & Hconnect & Hconfig & _).
  vm_compute in Hconnect. injection Hconnect as <- _.
  vm_compute in Hconfig. discriminate Hconfig.
Qed.


(** The proxied session of the example above, run: one provisioning
    request, then the platform's proxy path and the proxy URL; the
    sandbox's own URL, https://sb.example, is not contacted. *)
Example proxied_session :
  let sandbox :=
    mkSandbox "sb-1" "https://sb.example" (Some "wss://platform.example/proxy/sb-1/ws")
              None None in
  let platform :=
    mkEnv (mkClientOptions None (Some "sk") (Some "client-1") None None None None
             (Some "https://platform.example") None None
             VUndefined VUndefined VUndefined VUndefined)
          ∅ (Responded (mkHttpResponse true 200 EmptyString (Some sandbox)))
          (λ _, Responded (mkHttpResponse true 200 EmptyString (Some (Some "c0ffee"))))
          (λ _, Rejected) true (λ s, s) in
  configTargets (trace (start platform newClient).2)
  = ["https://platform.example/proxy/sb-1/config"] ∧
  socketTargets (trace (start platform newClient).2)
  = ["wss://platform.example/proxy/sb-1/ws?token=c0ffee"].
Proof. vm_compute. split; reflexivity. Qed.

(** * Further properties of the session manager *)

(** ** Helpers of the client *)

Lemma stripTrailingSlash_slash (s : string) : stripTrailingSlash (s +:+ "/") = s.
Proof.
  induction s as [|c s IH]; [reflexivity|].
  change (String c s +:+ "/") with (String c (s +:+ "/")). cbn [stripTrailingSlash].
  assert (nonEmpty (s +:+ "/") = true) as -> by (by destruct s).
  rewrite andb_false_r. by rewrite IH.
Qed.

(** X10.  [replace(/\/$/, '')] removes one trailing slash and nothing else:
    a string followed by a slash gives the string back, and in general the
    result is the argument itself or the argument without its last
    character, a slash.  So "https://host/" and "https://host" name the same
    base, while "https://host//" keeps one slash. *)
Theorem stripTrailingSlash_spec (s : string) :
  stripTrailingSlash (s +:+ "/") = s ∧
  (stripTrailingSlash s = s ∨ s = stripTrailingSlash s +:+ "/") ∧
  (stripTrailingSlash s = s ↔ ∀ s', s ≠ s' +:+ "/").
Proof.
  split; [apply stripTrailingSlash_slash|].
  assert (stripTrailingSlash s = s ∧ (∀ s', s ≠ s' +:+ "/")
          ∨ s = stripTrailingSlash s +:+ "/") as H.
  { induction s as [|c s IH].
    - left. split; [done|]. by intros [|? ?].
    - cbn [stripTrailingSlash].
      destruct (bool_decide (c = "/"%char)) eqn:Ec; destruct (nonEmpty s) eqn:Es;
        cbn [andb negb].
      + destruct IH as [[IH1 IH2]|IH].
        * left. rewrite IH1. split; [done|]. intros [|c' s']; [by destruct s|].
          intros [= -> ->]. by apply (IH2 s').
        * right. change (String c (stripTrailingSlash s) +:+ "/")
            with (String c (stripTrailingSlash s +:+ "/")). by rewrite <- IH.
      + right. apply bool_decide_eq_true in Ec. subst c. by destruct s.
      + destruct IH as [[IH1 IH2]|IH].
        * left. rewrite IH1. split; [done|]. intros [|c' s']; [by destruct s|].
          intros [= -> ->]. by apply (IH2 s').
        * right. change (String c (stripTrailingSlash s) +:+ "/")
            with (String c (stripTrailingSlash s +:+ "/")). by rewrite <- IH.
      + destruct s; [|done]. left. split; [done|].
        apply bool_decide_eq_false in Ec.
        intros [|c' s']; [intros [= ->]; done|]. intros [= -> H]. by destruct s'. }
  split.
  - destruct H as [[H _]|H]; [by left|by right].
  - split.
    + intros Heq s' ->. rewrite stripTrailingSlash_slash in Heq.
      clear -Heq. induction s' as [|c s' IH]; [done|].
      change (String c s' +:+ "/") with (String c (s' +:+ "/")) in Heq.
      injection Heq as Heq. by apply IH.
    + intros Hno. destruct H as [[H _]|H]; [done|]. by destruct (Hno _ H).
Qed.

Lemma paramsSet_filter_ne (key value : string) (params : list (string * string)) :
  filter (λ kv : string * string, kv.1 ≠ key) (paramsSet key value params)
  = filter (λ kv : string * string, kv.1 ≠ key) params.
Proof.
  induction params as [|[k v] params IH]; cbn [paramsSet].
  - rewrite filter_cons_False by (cbn; tauto). done.
  - case_bool_decide as Hk.
    + subst k. rewrite !filter_cons_False by (cbn; tauto).
      apply list_filter_filter_l. tauto.
    + rewrite !filter_cons_True by done. by rewrite IH.
Qed.

Lemma paramsSet_filter_eq (key value : string) (params : list (string * string)) :
  filter (λ kv : string * string, kv.1 = key) (paramsSet key value params) = [(key, value)].
Proof.
  induction params as [|[k v] params IH]; cbn [paramsSet].
  - by rewrite filter_cons_True.
  - case_bool_decide as Hk.
    + rewrite filter_cons_True by done. f_equal.
      rewrite list_filter_filter. clear.
      induction params as [|kv params IH]; [done|].
      by rewrite filter_cons_False by tauto.
    + by rewrite filter_cons_False.
Qed.

Lemma paramsSet_keys (key value : string) (params : list (string * string)) k :
  k ∈ (paramsSet key value params).*1 → k = key ∨ k ∈ params.*1.
Proof.
  intros [[k' v'] [-> Hin]]%list_elem_of_fmap. cbn.
  destruct (decide (k' = key)) as [->|Hne]; [by left|right].
  assert ((k', v') ∈ filter (λ kv : string * string, kv.1 ≠ key) (paramsSet key value params))
    as H by (by apply list_elem_of_filter).
  rewrite paramsSet_filter_ne in H. apply list_elem_of_filter in H as [_ H].
  apply list_elem_of_fmap. by exists (k', v').
Qed.

Lemma paramsSet_NoDup (key value : string) (params : list (string * string)) :
  NoDup params.*1 → NoDup (paramsSet key value params).*1.
Proof.
  induction params as [|[k v] params IH]; cbn [paramsSet fmap list_fmap]; intros Hnd.
  - apply NoDup_singleton.
  - apply NoDup_cons in Hnd as [Hk Hnd]. cbn [fst] in *. case_bool_decide as Hkey.
    + subst k. cbn [fmap list_fmap fst]. apply NoDup_cons. split.
      * intros [[k' v'] [Heq Hin]]%list_elem_of_fmap.
        apply list_elem_of_filter in Hin as [Hne _]. cbn in *. congruence.
      * apply (NoDup_fmap_2_strong fst).
        -- intros [k1 v1] [k2 v2] [_ H1]%list_elem_of_filter [_ H2]%list_elem_of_filter Heq.
           cbn in Heq. subst k2. f_equal.
           clear -Hnd H1 H2. induction params as [|[k' v'] params IH]; [by apply elem_of_nil in H1|].
           cbn [fmap list_fmap fst] in Hnd. apply NoDup_cons in Hnd as [Hk' Hnd].
           apply elem_of_cons in H1 as [[= -> ->]|H1], H2 as [[= ?]|H2]; subst.
           ++ done.
           ++ destruct Hk'. apply list_elem_of_fmap. by exists (k', v2).
           ++ destruct Hk'. apply list_elem_of_fmap. by exists (k', v1).
           ++ by apply IH.
        -- apply NoDup_filter. by apply (NoDup_fmap_1 fst).
    + cbn [fmap list_fmap fst]. apply NoDup_cons. split; [|by apply IH].
      intros [->|Hin]%paramsSet_keys; done.
Qed.

Lemma paramsSet_fresh (key value : string) (params : list (string * string)) :
  key ∉ params.*1 → paramsSet key value params = params ++ [(key, value)].
Proof.
  induction params as [|[k v] params IH]; intros Hk; [done|].
  cbn [fmap list_fmap fst] in Hk. apply not_elem_of_cons in Hk as [Hne Hk].
  cbn [paramsSet]. rewrite bool_decide_eq_false_2 by congruence.
  by rewrite IH.
Qed.

Lemma filter_ne_fresh (key : string) (params : list (string * string)) :
  key ∉ params.*1 → filter (λ kv : string * string, kv.1 ≠ key) params = params.
Proof.
  induction params as [|[k v] params IH]; intros Hk; [done|].
  cbn [fmap list_fmap fst] in Hk. apply not_elem_of_cons in Hk as [Hne Hk].
  rewrite filter_cons_True by (cbn; congruence). by rewrite IH.
Qed.

Lemma wsUrlParams_fold_fresh (given acc : list (string * string)) :
  NoDup given.*1 → (∀ k, k ∈ given.*1 → k ∉ acc.*1) →
  foldl (λ params kv, paramsSet kv.1 kv.2 params) acc given = acc ++ given.
Proof.
  revert acc. induction given as [|[k v] given IH]; intros acc Hnd Hfresh.
  - by rewrite app_nil_r.
  - cbn [fmap list_fmap fst] in Hnd, Hfresh. apply NoDup_cons in Hnd as [Hk Hnd].
    cbn [foldl fst snd]. rewrite paramsSet_fresh by (apply Hfresh; by left).
    rewrite IH; [by rewrite <- app_assoc|done|].
    intros k' Hk'. rewrite fmap_app. cbn [fmap list_fmap fst].
    intros [Hin|Hin%list_elem_of_singleton]%elem_of_app.
    + by apply (Hfresh k'); [right|].
    + by subst k'.
Qed.

Lemma wsUrlParams_fold_head (given : list (string * string)) : ∀ value rest,
  ∃ value' rest',
    foldl (λ params kv, paramsSet kv.1 kv.2 params) (("token", value) :: rest) given
    = ("token", value') :: rest'.
Proof.
  induction given as [|[k v] given IH]; intros value rest; [by eexists _, _|].
  cbn [foldl fst snd paramsSet]. case_bool_decide as Hk; [subst k|]; apply IH.
Qed.

Lemma wsUrlParams_fold_NoDup (given start : list (string * string)) :
  NoDup start.*1 →
  NoDup (foldl (λ params kv, paramsSet kv.1 kv.2 params) start given).*1.
Proof.
  revert start. induction given as [|[k v] given IH]; intros start Hs; [done|].
  cbn [foldl]. apply IH. by apply paramsSet_NoDup.
Qed.

(** X11.  When [start] opens its socket, the URL is the connection's
    transport URL, the joiner (a question mark, or an ampersand when the
    URL already holds a question mark) and the serialised parameters.
    These carry each name once and begin with the token.  They are the
    token alone when the connection has no parameters of its own; the token
    followed by the connection's parameters when these have distinct names,
    none of them token; and when the last of the connection's parameters is
    named token, its value takes the place of the connection token.  With
    distinct names, a parameter named token gives its value to the first
    pair and the other parameters follow in their order. *)
Theorem socket_url_query (env : Env) (st st1 : State) apiKey connection k
    (response : HttpResponse ConfigReply) token :
  resolveApiKey env = Some apiKey → nonEmpty apiKey = true →
  bind (resolveIdentity env) (λ _, connect env) st = (Returned connection, st1) →
  k < 5 → (∀ i, i < k → attemptFailed env (i + configRequests st1) = true) →
  configPost env (k + configRequests st1) = Responded response → ok response = true →
  json response = Some (Some token) → nonEmpty token = true →
  ws (start env st).2
  = Some (wsUrl connection +:+ wsUrlJoiner connection
          +:+ paramsToString (formUrlEncode env) (wsUrlParams connection token)) ∧
  NoDup (wsUrlParams connection token).*1 ∧
  (∃ value rest, wsUrlParams connection token = ("token", value) :: rest) ∧
  (authParams connection = None → wsUrlParams connection token = [("token", token)]) ∧
  (∀ given, authParams connection = Some given →
     NoDup given.*1 → "token" ∉ given.*1 →
     wsUrlParams connection token = ("token", token) :: given) ∧
  (∀ given value, authParams connection = Some (given ++ [("token", value)]) →
     ∃ rest, wsUrlParams connection token = ("token", value) :: rest) ∧
  (∀ given value, authParams connection = Some given →
     NoDup given.*1 → ("token", value) ∈ given →
     wsUrlParams connection token
     = ("token", value) :: filter (λ kv : string * string, kv.1 ≠ "token") given).
Proof.
  intros Hkey Hne Hconn Hk Hfail Hpost Hok Hjson Htoken.
  split; [|split; [|split; [|split; [|split; [|split]]]]].
  - rewrite (start_stages env st st1 apiKey connection Hkey Hne Hconn).
    destruct (session_targets env connection apiKey st1) as [_ Hsocket].
    by destruct (Hsocket k response token Hk Hfail Hpost Hok Hjson Htoken) as [-> _].
  - apply wsUrlParams_fold_NoDup. cbn. apply NoDup_singleton.
  - apply wsUrlParams_fold_head.
  - intros Hnone. unfold wsUrlParams. by rewrite Hnone.
  - intros given Hgiven Hnd Hno. unfold wsUrlParams. rewrite Hgiven.
    cbn [default paramsSet]. rewrite wsUrlParams_fold_fresh; [done|done|].
    intros k' Hk' [->|Hin%elem_of_nil]%elem_of_cons; done.
  - intros given value Hgiven. unfold wsUrlParams. rewrite Hgiven.
    cbn [from_option paramsSet]. unfold Datatypes.id. rewrite foldl_app.
    destruct (wsUrlParams_fold_head given token []) as (value' & rest' & ->).
    cbn [foldl fst snd paramsSet]. rewrite bool_decide_eq_true_2 by done. by eexists.
  - intros given value Hgiven Hnd Hin. unfold wsUrlParams. rewrite Hgiven.
    cbn [from_option paramsSet]. unfold Datatypes.id.
    apply list_elem_of_split in Hin as (before & after & ->).
    rewrite fmap_app in Hnd. cbn [fmap list_fmap fst] in Hnd.
    apply NoDup_app in Hnd as (Hnd1 & Hdisj & Hnd2). apply NoDup_cons in Hnd2 as [Hafter Hnd2].
    assert ("token" ∉ before.*1) as Hbefore by (intros H; apply (Hdisj _ H); by left).
    rewrite foldl_app, (wsUrlParams_fold_fresh before); [|done|].
    2:{ intros k' Hk' [->|Hin%elem_of_nil]%elem_of_cons; done. }
    cbn [foldl fst snd app paramsSet]. rewrite bool_decide_eq_true_2 by done.
    rewrite filter_ne_fresh by done. rewrite wsUrlParams_fold_fresh; [|done|].
    + rewrite filter_app, filter_cons_False by (cbn; tauto).
      by rewrite !filter_ne_fresh by done.
    + cbn [fmap list_fmap fst]. intros k' Hk' [->|Hin]%elem_of_cons; [done|].
      apply (Hdisj k' Hin). by right.
Qed.

Lemma socket_url_query_witness :
  let sandbox :=
    mkSandbox "sb-1" "https://sb.example/" None None
              (Some [("sig", "s"); ("token", "override")]) in
  let env :=
    mkEnv (mkClientOptions None (Some "sk") (Some "client-1") None None None None
             (Some "https://platform.example") None None
             VUndefined VUndefined VUndefined VUndefined)
          ∅ (Responded (mkHttpResponse true 200 EmptyString (Some sandbox)))
          (λ _, Responded (mkHttpResponse true 200 EmptyString (Some (Some "c0ffee"))))
          (λ _, Rejected) true (λ s, s) in
  ws (start env newClient).2 = Some "wss://sb.example/ws?token=override&sig=s".
Proof.
  intros sandbox env.
  pose (connection :=
          mkConnection "https://sb.example/config" "wss://sb.example/ws" None
                       (Some [("sig", "s"); ("token", "override")]) (Some StopAndDelete)).
  exact (proj1 (socket_url_query env newClient
                  (bind (resolveIdentity env) (λ _, connect env) newClient).2
                  "sk" connection 0
                  (mkHttpResponse true 200 EmptyString (Some (Some "c0ffee"))) "c0ffee"
                  eq_refl eq_refl eq_refl ltac:(lia) ltac:(intros i Hi; lia)
                  eq_refl eq_refl eq_refl eq_refl)).
Defined.

(** ** Message handlers *)

(** X12.  Every registered callback is called for a message, in the order
    of the registrations.  The function [onMessage] returns removes every
    registration of that callback, not only the one it was returned for,
    and keeps the others, as many times as they were registered and in
    their order: what is left is the list before the registration with
    elements taken out, none of them another callback.  It gives back the
    list of handlers as it was before the registration exactly when the
    callback was not registered already.  Calling it again changes
    nothing. *)
Theorem message_handlers (handlers : list Handler) (handler : Handler) :
  (∀ (Msg : Type) (message : Msg) registered,
     handleMessage message (foldl (λ hs h, onMessage h hs) handlers registered)
     = handleMessage message handlers ++ ((λ h, (h, message)) <$> registered)) ∧
  (handler ∉ unsubscribe handler (onMessage handler handlers)) ∧
  unsubscribe handler (onMessage handler handlers) `sublist_of` handlers ∧
  (∀ other, other ≠ handler →
     filter (λ h, h = other) (unsubscribe handler (onMessage handler handlers))
     = filter (λ h, h = other) handlers) ∧
  (unsubscribe handler (onMessage handler handlers) = handlers ↔ handler ∉ handlers) ∧
  unsubscribe handler (unsubscribe handler handlers) = unsubscribe handler handlers.
Proof.
  split; [|split; [|split; [|split; [|split]]]].
  - intros Msg message registered. revert handlers.
    induction registered as [|h registered IH]; intros handlers.
    + cbn. by rewrite app_nil_r.
    + cbn [foldl]. rewrite IH. unfold handleMessage, onMessage.
      rewrite fmap_app, <- app_assoc. done.
  - unfold unsubscribe. intros [H _]%list_elem_of_filter. done.
  - unfold unsubscribe, onMessage.
    rewrite filter_app, filter_cons_False, filter_nil, app_nil_r by tauto.
    apply sublist_filter.
  - intros other Hne. unfold unsubscribe, onMessage.
    rewrite filter_app, filter_cons_False, filter_nil, app_nil_r by tauto.
    rewrite list_filter_filter. induction handlers as [|h handlers IH]; [done|].
    destruct (decide (h = other)) as [->|Hh].
    + rewrite !filter_cons_True by done. by rewrite IH.
    + rewrite !filter_cons_False by tauto. done.
  - unfold unsubscribe, onMessage.
    rewrite filter_app, filter_cons_False, filter_nil, app_nil_r by tauto.
    split.
    + intros Heq Hin. rewrite <- Heq in Hin. apply list_elem_of_filter in Hin as [H _]. done.
    + intros Hnot. induction handlers as [|h handlers IH]; [done|].
      apply not_elem_of_cons in Hnot as [Hne Hnot].
      rewrite filter_cons_True by done. by rewrite IH.
  - unfold unsubscribe. rewrite list_filter_filter.
    apply list_filter_iff. tauto.
Qed.

Lemma message_handlers_witness :
  filter (λ h, h = 2) (unsubscribe 1 (onMessage 1 [1; 2; 1])) = filter (λ h, h = 2) [1; 2; 1].
Proof.
  apply (proj1 (proj2 (proj2 (proj2 (message_handlers [1; 2; 1] 1)))) 2). discriminate.
Defined.

(** ** [start]: failures before and during provisioning *)

(** X13.  [start] fails before any request is sent when no API key is
    given by the options or the environment, leaving the client untouched;
    and, in platform mode, when no client id is given, leaving the trace and
    the sandbox id untouched. *)
Theorem start_fails_fast (env : Env) (st : State) :
  (truthyStr (resolveApiKey env) = false →
   start env st = (Thrown (Error "ANTHROPIC_API_KEY is required"), st)) ∧
  (truthyStr (resolveApiKey env) = true →
   truthyStr (connectionUrl (options env)) = false →
   truthyStr (orElse (clientId (options env)) (processEnv env !! "CASTARI_CLIENT_ID")) = false →
   ∃ st',
     start env st
     = (Thrown (Error "CASTARI_CLIENT_ID is required when connecting via the Castari Platform"),
        st')
     ∧ trace st' = trace st ∧ sandboxId st' = sandboxId st ∧ ws st' = ws st).
Proof.
  split.
  - intros H. unfold start. cbn zeta. by rewrite H.
  - intros Hkey Hlocal Hclient. unfold start. cbn zeta. rewrite Hkey. cbn [negb].
    unfold bind at 1, resolveIdentity, setResolved, orUndefined. rewrite Hclient.
    unfold bind at 1, connect. rewrite Hlocal.
    unfold setupPlatformConnection, bind, get. cbn [resolvedClientId truthyStr negb].
    unfold throw. eexists. split; [reflexivity|]. done.
Qed.

Lemma start_fails_fast_witness :
  let env :=
    mkEnv (mkClientOptions None None None None None None None None None None
             VUndefined VUndefined VUndefined VUndefined)
          {[ "ANTHROPIC_API_KEY" := "sk-env" ]}
          Rejected (λ _, Rejected) (λ _, Rejected) true (λ s, s) in
  ∃ st',
    start env newClient
    = (Thrown (Error "CASTARI_CLIENT_ID is required when connecting via the Castari Platform"),
       st')
    ∧ trace st' = trace newClient ∧ sandboxId st' = sandboxId newClient ∧ ws st' = ws newClient.
Proof.
  intros env.
  exact (proj2 (start_fails_fast env newClient) eq_refl eq_refl eq_refl).
Defined.

(** The state in which [setupPlatformConnection] receives the answer of
    the platform. *)
Lemma provisioning_request (env : Env) (st : State) (client : string) :
  truthyStr (connectionUrl (options env)) = false →
  orUndefined (orElse (clientId (options env)) (processEnv env !! "CASTARI_CLIENT_ID"))
  = Some client →
  ∃ request st0,
    isSandboxStart request = true
    ∧ trace st0 = trace st ++ [request] ∧ sandboxId st0 = sandboxId st
    ∧ ws st0 = ws st ∧ configRequests st0 = configRequests st
    ∧ stopRequests st0 = stopRequests st
    ∧ bind (resolveIdentity env) (λ _, connect env) st
      = match sandboxStart env with
        | Rejected => (Thrown FetchRejected, st0)
        | Responded response =>
            if negb (ok response)
            then (Thrown (Error ("Failed to start sandbox: " +:+ text response)), st0)
            else match json response with
                 | None => (Thrown JsonRejected, st0)
                 | Some sandbox =>
                     (Returned
                        (if resolveUseProxy env && truthyStr (proxyUrl sandbox) then
                           mkConnection
                             (resolvePlatformUrl env +:+ "/proxy/" +:+ id sandbox +:+ "/config")
                             (default EmptyString (proxyUrl sandbox))
                             None None (Some StopAndDelete)
                         else
                           mkConnection
                             (replace "wss://" "https://"
                                (replace "ws://" "http://" (stripTrailingSlash (url sandbox)))
                              +:+ "/config")
                             (replace "http://" "ws://"
                                (replace "https://" "wss://" (stripTrailingSlash (url sandbox)))
                              +:+ "/ws")
                             (sandboxAuthHeaders sandbox) (sandboxAuthParams sandbox)
                             (Some StopAndDelete)),
                      mkState (ws st0) (Some (id sandbox)) (resolvedClientId st0)
                              (resolvedPlatformApiKey st0) (configRequests st0)
                              (stopRequests st0) (trace st0))
                 end
        end.
Proof.
  intros Hlocal Hclient.
  assert (nonEmpty client = true) as Hc.
  { pose proof Hclient as Hc0. unfold orUndefined in Hc0.
    destruct (orElse _ _) as [c|]; cbn [truthyStr] in Hc0; [|done].
    destruct (nonEmpty c) eqn:E; [|done]. by injection Hc0 as <-. }
  unfold bind at 1, resolveIdentity, setResolved. rewrite Hclient.
  unfold connect. rewrite Hlocal.
  unfold setupPlatformConnection, bind, get, emit, setSandboxId, ret, throw.
  cbn [resolvedClientId truthyStr]. rewrite Hc. cbn [negb].
  eexists _, _. split; [|split; [|split; [|split; [|split; [|split]]]]].
  7:{ destruct (sandboxStart env) as [|response]; [reflexivity|].
      destruct (negb (ok response)); [reflexivity|].
      destruct (json response) as [sandbox|]; [|reflexivity].
      destruct (resolveUseProxy env && truthyStr (proxyUrl sandbox)); reflexivity. }
  2: reflexivity.
  all: reflexivity.
Qed.

(** X14.  In platform mode, when the provisioning request is rejected, or
    answered with a status that is not a success, [start] throws (in the
    second case an error carrying the body of the answer) after that one
    request: no configuration request, no stop request, no socket, and the
    sandbox id of the client is left as it was. *)
Theorem provisioning_failure (env : Env) (st : State) (client : string) :
  truthyStr (resolveApiKey env) = true →
  truthyStr (connectionUrl (options env)) = false →
  orUndefined (orElse (clientId (options env)) (processEnv env !! "CASTARI_CLIENT_ID"))
  = Some client →
  match sandboxStart env with
  | Rejected => True
  | Responded response => ok response = false
  end →
  ∃ request st',
    start env st
    = (Thrown match sandboxStart env with
              | Rejected => FetchRejected
              | Responded response => Error ("Failed to start sandbox: " +:+ text response)
              end,
       st')
    ∧ isSandboxStart request = true
    ∧ trace st' = trace st ++ [request]
    ∧ sandboxId st' = sandboxId st ∧ ws st' = ws st.
Proof.
  intros Hkey Hlocal Hclient Hfail.
  destruct (provisioning_request env st client Hlocal Hclient)
    as (request & st0 & Hreq & Htr & Hsb & Hws & _ & _ & Hconn).
  exists request, st0. split; [|done].
  unfold start. cbn zeta. rewrite Hkey. cbn [negb].
  unfold bind at 1 in Hconn. unfold bind at 1.
  unfold resolveIdentity, setResolved in *. cbn beta iota in *.
  unfold bind at 1. rewrite Hconn.
  destruct (sandboxStart env) as [|response]; [done|]. by rewrite Hfail.
Qed.

Lemma provisioning_failure_witness :
  let env :=
    mkEnv (mkClientOptions None (Some "sk") (Some "client-1") None None None None
             (Some "https://platform.example") None None
             VUndefined VUndefined VUndefined VUndefined)
          ∅ (Responded (mkHttpResponse false 402 "quota exceeded" None))
          (λ _, Rejected) (λ _, Rejected) true (λ s, s) in
  ∃ request st',
    start env newClient = (Thrown (Error "Failed to start sandbox: quota exceeded"), st')
    ∧ isSandboxStart request = true
    ∧ trace st' = trace newClient ++ [request]
    ∧ sandboxId st' = sandboxId newClient ∧ ws st' = ws newClient.
Proof.
  intros env.
  exact (provisioning_failure env newClient "client-1" eq_refl eq_refl eq_refl eq_refl).
Defined.

(** ** [start]: the session on any connection *)

Lemma configure_only_cleanup (P : Event → Prop) env connection apiKey :
  P (requestOf env connection apiKey) → P (Sleep 3000) →
  only P (runCleanup env connection) →
  only P (configure env connection apiKey).
Proof.
  intros Hreq Hsleep Hclean. unfold configure. cbn zeta.
  apply only_bind; [by apply configLoop_only|]. intros [response|].
  - destruct (ok response); [apply only_ret|].
    apply only_bind; [done|]. intros _. apply only_throw.
  - apply only_bind; [done|]. intros _. apply only_throw.
Qed.

Lemma handshake_only_cleanup (P : Event → Prop) env connection configResponse :
  (∀ token, P (WebSocketOpen (webSocketUrl env connection token))) →
  (webSocketOpens env = false → P (ConsoleError "WebSocket error:")) →
  only P (runCleanup env connection) →
  only P (handshake env connection configResponse).
Proof.
  intros Hopen Hlog Hclean. unfold handshake.
  destruct (json configResponse) as [connectionToken|]; [|apply only_throw].
  destruct (truthyStr connectionToken); cbn [negb].
  - apply only_bind; [by apply only_emit|]. intros _.
    apply only_bind; [apply only_setWs|]. intros _.
    destruct (webSocketOpens env); [apply only_ret|].
    apply only_bind; [by apply only_emit, Hlog|]. intros _. apply only_throw.
  - apply only_bind; [done|]. intros _. apply only_throw.
Qed.

Lemma session_only_strict env connection apiKey :
  only (sessionEvent env connection apiKey)
       (bind (configure env connection apiKey) (handshake env connection)).
Proof.
  assert (only (sessionEvent env connection apiKey) (runCleanup env connection)) as Hclean.
  { apply runCleanup_only. by intros []. }
  apply only_bind.
  - by apply configure_only_cleanup.
  - intros configResponse. apply handshake_only_cleanup; [|done|done].
    intros token. by exists token.
Qed.

(** X15.  Every configuration request of [start] carries the same payload,
    whose API key is the one of the options when they give one, and the
    one of the environment only otherwise; and every wait of [start] is
    3000 ms. *)
Theorem start_payload (env : Env) (st : State) :
  Forall (λ e, match e with
               | ConfigRequest _ _ payload =>
                   payload = payloadOf env (default EmptyString (resolveApiKey env))
               | Sleep ms => ms = 3000%Z
               | _ => True
               end)
         (newEvents st (start env st).2) ∧
  (∀ key, anthropicApiKey (options env) = Some key → nonEmpty key = true →
     payloadApiKey (payloadOf env (default EmptyString (resolveApiKey env))) = key) ∧
  (truthyStr (anthropicApiKey (options env)) = false →
   ∀ key, processEnv env !! "ANTHROPIC_API_KEY" = Some key →
     payloadApiKey (payloadOf env (default EmptyString (resolveApiKey env))) = key).
Proof.
  split; [|split].
  - set (P := λ e, match e with
                   | ConfigRequest _ _ payload =>
                       payload = payloadOf env (default EmptyString (resolveApiKey env))
                   | Sleep ms => ms = 3000%Z
                   | _ => True
                   end).
    assert (only P (start env)) as H.
    { unfold start. cbn zeta.
      destruct (negb (truthyStr (resolveApiKey env))); [apply only_throw|].
      apply only_bind; [apply only_setResolved|]. intros _.
      apply only_bind; [apply connect_only; by intros []|]. intros connection.
      apply (only_weaken (sessionEvent env connection (default EmptyString (resolveApiKey env)))).
      - intros [] He; cbn in *; try done. by injection He as _ _ ->.
      - apply session_only_strict. }
    destruct (H st) as (events & Htr & F). by rewrite (newEvents_trace _ _ _ Htr).
  - intros key Hkey Hne. unfold resolveApiKey. rewrite Hkey. cbn [orElse]. by rewrite Hne.
  - intros Hno key Henv. unfold resolveApiKey. rewrite Henv.
    destruct (anthropicApiKey (options env)) as [k|]; cbn [orElse truthyStr] in *; [|done].
    by rewrite Hno.
Qed.

Lemma start_payload_witness :
  let env :=
    mkEnv (mkClientOptions (Some "http://localhost:3000") (Some "sk-option") None None None
             None None None None None VUndefined VUndefined VUndefined VUndefined)
          {[ "ANTHROPIC_API_KEY" := "sk-env" ]}
          Rejected (λ _, Rejected) (λ _, Rejected) true (λ s, s) in
  payloadApiKey (payloadOf env (default EmptyString (resolveApiKey env))) = "sk-option".
Proof.
  intros env.
  exact (proj1 (proj2 (start_payload env newClient)) "sk-option" eq_refl eq_refl).
Defined.

Lemma runCleanup_keeps env connection : keepsSandbox (runCleanup env connection).
Proof.
  intros st. destruct (runCleanup_returns env connection st) as (n & events & H & _).
  by rewrite H.
Qed.

Lemma configLoop_keeps env connection payload fuel : ∀ attempt previous,
  keepsSandbox (configLoop env connection payload fuel attempt previous).
Proof.
  induction fuel as [|fuel IH]; intros attempt previous st; [done|].
  rewrite configLoop_unfold.
  destruct (attempt <=? maxConfigAttempts)%nat; [|done].
  unfold bind at 1. rewrite postConfig_eval.
  destruct (succeeded _); [done|].
  unfold bind at 1, when.
  destruct (attempt <? maxConfigAttempts)%nat; cbn; by rewrite IH.
Qed.

Lemma session_keeps env connection apiKey :
  keepsSandbox (bind (configure env connection apiKey) (handshake env connection)).
Proof.
  intros st. unfold bind at 1, configure. cbn zeta. unfold bind at 1.
  pose proof (configLoop_keeps env connection (payloadOf env apiKey)
                maxConfigAttempts 1 None st) as Hloop.
  destruct (configLoop _ _ _ _ _ _ st) as [[[response|]|e] st1]; cbn [snd] in Hloop.
  - destruct (ok response).
    + cbn. unfold handshake.
      destruct (json response) as [token|]; [|done].
      destruct (truthyStr token); cbn [negb].
      * unfold bind, emit, setWs, throw, ret. by destruct (webSocketOpens env).
      * unfold bind at 1. pose proof (runCleanup_keeps env connection st1) as Hc.
        destruct (runCleanup env connection st1) as [[[]|e] st2]; cbn in *; congruence.
    + unfold bind at 1. pose proof (runCleanup_keeps env connection st1) as Hc.
      destruct (runCleanup env connection st1) as [[[]|e] st2]; cbn in *; congruence.
  - unfold bind at 1. pose proof (runCleanup_keeps env connection st1) as Hc.
    destruct (runCleanup env connection st1) as [[[]|e] st2]; cbn in *; congruence.
  - by cbn.
Qed.

(** X16.  With an explicit direct URL [start] sends nothing to the
    platform, whatever happens: no provisioning request and, the
    connection having no cleanup, no stop request either, even when the
    configuration fails, and the socket is never closed; its events are
    configuration requests, waits, the opening of the socket, and, only
    when the socket fails to open, the log of that error. *)
Theorem local_mode_no_platform (env : Env) (st : State) (u : string) :
  connectionUrl (options env) = Some u → nonEmpty u = true →
  Forall (λ e, match e with
               | ConfigRequest _ _ _ | Sleep _ | WebSocketOpen _ => True
               | ConsoleError message =>
                   message = "WebSocket error:" ∧ webSocketOpens env = false
               | _ => False
               end)
         (newEvents st (start env st).2) ∧
  sandboxId (start env st).2 = sandboxId st.
Proof.
  intros Hu Hne.
  set (P := λ e, match e with
                 | ConfigRequest _ _ _ | Sleep _ | WebSocketOpen _ => True
                 | ConsoleError message =>
                     message = "WebSocket error:" ∧ webSocketOpens env = false
                 | _ => False
                 end).
  set (connection :=
         mkConnection
           (replace "wss://" "https://" (replace "ws://" "http://" (stripTrailingSlash u))
            +:+ "/config")
           (replace "https://" "wss://" (replace "http://" "ws://" (stripTrailingSlash u))
            +:+ "/ws")
           None None None).
  assert (∀ apiKey, only P (bind (configure env connection apiKey) (handshake env connection)))
    as Hsession.
  { intros apiKey. apply only_bind.
    - apply configure_only_cleanup; [done|done|apply only_ret].
    - intros configResponse. apply handshake_only_cleanup; [done|done|apply only_ret]. }
  destruct (truthyStr (resolveApiKey env)) eqn:Hkey.
  2:{ unfold start. cbn zeta. rewrite Hkey. unfold throw. cbn [negb snd].
      unfold newEvents. by rewrite drop_all. }
  destruct (resolveApiKey env) as [apiKey|] eqn:Hk; [|done]. cbn [truthyStr] in Hkey.
  assert (bind (resolveIdentity env) (λ _, connect env) st
          = (Returned connection, (resolveIdentity env st).2)) as Hconn.
  { unfold bind, resolveIdentity, setResolved. cbn. by apply connect_local. }
  rewrite (start_stages env st _ apiKey connection Hk Hkey Hconn).
  split.
  - destruct (Hsession apiKey (resolveIdentity env st).2) as (events & Htr & F).
    apply (newEvents_trace st) in Htr. by rewrite Htr.
  - by rewrite session_keeps.
Qed.

Lemma local_mode_no_platform_witness :
  let env :=
    mkEnv (mkClientOptions (Some "http://localhost:3000") (Some "sk") None None None
             None None None None None VUndefined VUndefined VUndefined VUndefined)
          ∅ Rejected (λ _, Responded (mkHttpResponse false 500 "down" None))
          (λ _, Rejected) true (λ s, s) in
  sandboxId (start env newClient).2 = None.
Proof.
  intros env.
  exact (proj2 (local_mode_no_platform env newClient "http://localhost:3000" eq_refl eq_refl)).
Defined.

(** ** [start]: the platform's direct route, and what is left to [stop] *)





(** X19.  In platform mode, once the platform has answered the
    provisioning request with a sandbox, the client holds its id whatever
    becomes of the rest of [start] (success, failed configuration, missing
    token, socket error); a [stop] after it sends a stop request for that
    id, with the [delete] flag on by default. *)
Theorem start_then_stop (env : Env) (st : State) client response sandbox :
  truthyStr (resolveApiKey env) = true →
  truthyStr (connectionUrl (options env)) = false →
  orUndefined (orElse (clientId (options env)) (processEnv env !! "CASTARI_CLIENT_ID"))
  = Some client →
  sandboxStart env = Responded response → ok response = true →
  json response = Some sandbox → nonEmpty (id sandbox) = true →
  let st' := (start env st).2 in
  sandboxId st' = Some (id sandbox) ∧
  ∀ arg,
    (stop env arg st').1 = Returned tt ∧
    stopsOf (newEvents st' (stop env arg st').2)
    = [(id sandbox, match arg with None => Some true | Some d => d end)].
Proof.
  intros Hkey Hlocal Hclient Hstart Hok Hjson Hid st'.
  destruct (resolveApiKey env) as [apiKey|] eqn:Hk; [|done]. cbn [truthyStr] in Hkey.
  destruct (provisioning_request env st client Hlocal Hclient)
    as (request & st0 & _ & _ & _ & _ & _ & _ & Hconn).
  rewrite Hstart, Hok, Hjson in Hconn. cbn [negb] in Hconn.
  assert (sandboxId st' = Some (id sandbox)) as Hsb.
  { subst st'. rewrite (start_stages env st _ apiKey _ Hk Hkey Hconn).
    by rewrite session_keeps. }
  split; [done|]. intros arg.
  destruct (stop_returns env arg st') as (n & events & Hstop & Hstops & _).
  rewrite Hstop. cbn [fst snd]. rewrite newEvents_app, Hstops, Hsb.
  cbn [truthyStr default]. by rewrite Hid.
Qed.

Lemma start_then_stop_witness :
  let sandbox :=
    mkSandbox "sb-1" "https://sb.example" (Some "wss://platform.example/proxy/sb-1/ws")
              None None in
  let response := mkHttpResponse true 200 EmptyString (Some sandbox) in
  let env :=
    mkEnv (mkClientOptions None (Some "sk") (Some "client-1") None None None None
             (Some "https://platform.example") None None
             VUndefined VUndefined VUndefined VUndefined)
          ∅ (Responded response)
          (λ _, Responded (mkHttpResponse true 200 EmptyString (Some (Some "c0ffee"))))
          (λ _, Rejected) false (λ s, s) in
  let st' := (start env newClient).2 in
  sandboxId st' = Some "sb-1" ∧
  stopsOf (newEvents st' (stop env (Some (Some false)) st').2) = [("sb-1", Some false)].
Proof.
  intros sandbox response env st'.
  destruct (start_then_stop env newClient "client-1" response sandbox
              eq_refl eq_refl eq_refl eq_refl eq_refl eq_refl eq_refl) as [H1 H2].
  split; [exact H1|exact (proj2 (H2 (Some (Some false))))].
Defined.

Lemma stripTrailingSlash_spec_witness :
  stripTrailingSlash "https://host" = "https://host".
Proof.
  apply (proj2 (proj2 (proj2 (stripTrailingSlash_spec "https://host")))).
  intros s' H.
  assert (stripTrailingSlash "https://host" = s') as Hs
    by (rewrite H; apply (proj1 (stripTrailingSlash_spec s'))).
  vm_compute in Hs. subst s'. discriminate H.
Defined.

End ClientProps.
